(** * Windows NT introspection layer (fdp_exec/nt/os_nt.cpp)

    A shallow embedding of the NT handler of the introspection engine:
    the kernel locator, the offset-table bootstrap, the process and
    module walkers and the name resolver, over an explicit model of the
    memory / register / symbol backend. *)

From Stdlib Require Import ZArith String Ascii Lia Bool.
From Stdlib.Strings Require Byte.
From stdpp Require Import base option list.

Local Open Scope Z_scope.

(** ** Machine integers: [uint64_t] with its wrap-around written out *)

Definition U64 : Z := 2 ^ 64.
Definition wrap64 (z : Z) : Z := z mod U64.
Definition add64 (a b : Z) : Z := wrap64 (a + b).
Definition sub64 (a b : Z) : Z := wrap64 (a - b).

Abbreviation byte := Byte.byte.
Definition byte_val (b : byte) : Z := Z.of_N (Byte.to_N b).
Definition byte_of_Z (z : Z) : byte :=
  match Byte.of_N (Z.to_N z) with Some b => b | None => Byte.x00 end.

(** The value of a byte string read as a little-endian number. *)
Fixpoint le_decode (bs : list byte) : Z :=
  match bs with
  | [] => 0
  | b :: bs => byte_val b + 256 * le_decode bs
  end.
(** Modelled from the spec: [read_le16] of the endian helpers, declared
    outside the sources at hand, decodes the first two bytes at a pointer
    as a little-endian number (section 3: little-endian encoded fields). *)
Definition read_le16 (bs : list byte) : Z := le_decode (take 2 bs).
(** The first four bytes at a pointer as a little-endian number: a 32-bit
    field. *)
Definition read_le32 (bs : list byte) : Z := le_decode (take 4 bs).
(** Modelled from the spec: [read_le64] of the endian helpers, declared
    outside the sources at hand, decodes the first eight bytes at a pointer
    as a little-endian number. *)
Definition read_le64 (bs : list byte) : Z := le_decode (take 8 bs).

(** ** Plain data of types.hpp as the walker uses it *)

(** Modelled from the spec: types.hpp is not part of the sources at hand; a
    process handle is the address of the process object and its page-table
    root (section 3). *)
Record proc_t := mk_proc { id : Z; dtb : Z }.
(** Modelled from the spec: a module handle is the address of the loader
    entry; the walker adds member offsets to it directly. *)
Definition mod_t := Z.
(** Modelled from the spec: a span is an address and a size (section 3). *)
Record span_t := mk_span { addr : Z; size : Z }.
(** Modelled from the spec: what a visitor answers, stop or go on. *)
Inductive walk_e := WALK_STOP | WALK_NEXT.

#[global] Instance proc_t_eq_dec : EqDecision proc_t.
Proof. solve_decision. Defined.
#[global] Instance walk_e_eq_dec : EqDecision walk_e.
Proof. solve_decision. Defined.

(** The three registers the handler reads. *)
Inductive msr_e := MSR_LSTAR | MSR_GS_BASE | MSR_KERNEL_GS_BASE.

(** ** The backend ([core::IHandler]) *)

(** Modelled from the spec: core.hpp is not part of the sources at hand;
    section 6 of the specification gives its contract.  Guest memory is a
    partial byte map per address-space selection ([None] is the selection
    of the running CPU), registers and the symbol store answer with
    optional values. *)
Record IHandler := {
  regs_read : msr_e -> option Z;
  memory : option proc_t -> Z -> option byte;
  sym_insert : string -> span_t -> list byte -> bool;
  sym_symbol : string -> string -> option Z;
  sym_struc_offset : string -> string -> string -> option Z;
}.

(** Modelled from the spec: a raw read of [n] bytes at [a] either completes
    or fails (section 6); it fails as soon as one byte is unmapped. *)
Fixpoint read_bytes (m : Z -> option byte) (a : Z) (n : nat) : option (list byte) :=
  match n with
  | O => Some []
  | S n =>
    match m a with
    | None => None
    | Some b =>
      match read_bytes m (add64 a 1) n with
      | None => None
      | Some bs => Some (b :: bs)
      end
    end
  end.

(** ** Diagnostics ([LOG], [FAIL]) *)

(** A diagnostic: its level, its format string and its arguments. *)
Inductive log_level := INFO | ERROR.
Inductive log_arg := ArgS (s : string) | ArgX (z : Z).
Record log_entry := mk_log { level : log_level; fmt : string; args : list log_arg }.

(** ** Mutable state around a call

    The backend's address-space selection, the trace of the memory reads
    issued so far and the diagnostics written so far. *)
Record read_ev := mk_read { r_ctx : option proc_t; r_addr : Z; r_len : Z }.
Record state := mk_state {
  cur : option proc_t;
  reads : list read_ev;
  logs : list log_entry;
}.

(** What a call can do: return, run into undefined behaviour (the
    dereference of an empty [std::optional]), or still be running when the
    fuel of the model is used up. *)
Inductive outcome (A : Type) :=
| Ret (a : A)
| Undefined
| OutOfFuel.
Arguments Ret {A} a.
Arguments Undefined {A}.
Arguments OutOfFuel {A}.

Definition M (A : Type) : Type := state -> outcome (A * state).

Definition ret {A} (a : A) : M A := fun st => Ret (a, st).
Definition bind {A B} (m : M A) (k : A -> M B) : M B :=
  fun st =>
    match m st with
    | Ret (a, st') => k a st'
    | Undefined => Undefined
    | OutOfFuel => OutOfFuel
    end.

Notation "x <- m ;; k" := (bind m (fun x => k))
  (at level 100, m at next level, k at level 200, right associativity).
Notation "m ;;; k" := (bind m (fun _ => k))
  (at level 100, k at level 200, right associativity).

(** Modelled from the spec: [LOG] is a macro of log.hpp, which is not part
    of the sources at hand; it writes one diagnostic. *)
Definition LOG (lvl : log_level) (f : string) (a : list log_arg) : M unit :=
  fun st => Ret (tt, mk_state (cur st) (reads st) (logs st ++ [mk_log lvl f a])).
(** Modelled from the spec: [FAIL] is a macro of log.hpp; it writes an error
    diagnostic and returns the given value from the enclosing function. *)
Definition FAIL {A} (v : A) (f : string) (a : list log_arg) : M A :=
  LOG ERROR f a ;;; ret v.

(** Modelled from the spec: the guard of core.hpp that [switch_process]
    returns (section 6, [switch_address_space(proc) -> scoped_guard]); it
    remembers the selection it replaced. *)
Record guard := mk_guard { saved : option proc_t }.
(** Modelled from the spec: [switch_process] of core.hpp selects the address
    space of [p] and returns the guard. *)
Definition switch_process (p : proc_t) : M guard :=
  fun st => Ret (mk_guard (cur st), mk_state (Some p) (reads st) (logs st)).
(** Modelled from the spec: the destructor of the guard reverts the
    selection (section 6: reverts on scope exit). *)
Definition release (g : guard) : M unit :=
  fun st => Ret (tt, mk_state (saved g) (reads st) (logs st)).
(** The scope of the local [ctx]: whatever [return] the body takes, the
    local is destroyed on the way out. *)
Definition scoped {A} (g : guard) (body : M A) : M A :=
  r <- body ;; release g ;;; ret r.


(** ** The fixed catalogs of member offsets and symbols *)

Inductive member_offset_e :=
| EPROCESS_ActiveProcessLinks
| EPROCESS_ImageFileName
| EPROCESS_Pcb
| EPROCESS_Peb
| EPROCESS_SeAuditProcessCreationInfo
| EPROCESS_VadRoot
| KPCR_Prcb
| KPRCB_CurrentThread
| KPROCESS_DirectoryTableBase
| KTHREAD_Process
| LDR_DATA_TABLE_ENTRY_DllBase
| LDR_DATA_TABLE_ENTRY_FullDllName
| LDR_DATA_TABLE_ENTRY_InLoadOrderLinks
| LDR_DATA_TABLE_ENTRY_SizeOfImage
| OBJECT_NAME_INFORMATION_Name
| PEB_Ldr
| PEB_LDR_DATA_InLoadOrderModuleList
| PEB_ProcessParameters
| RTL_USER_PROCESS_PARAMETERS_ImagePathName
| SE_AUDIT_PROCESS_CREATION_INFO_ImageFileName.
Definition MEMBER_OFFSET_COUNT : nat := 20.
Definition member_idx (e : member_offset_e) : nat :=
  match e with
  | EPROCESS_ActiveProcessLinks => 0
  | EPROCESS_ImageFileName => 1
  | EPROCESS_Pcb => 2
  | EPROCESS_Peb => 3
  | EPROCESS_SeAuditProcessCreationInfo => 4
  | EPROCESS_VadRoot => 5
  | KPCR_Prcb => 6
  | KPRCB_CurrentThread => 7
  | KPROCESS_DirectoryTableBase => 8
  | KTHREAD_Process => 9
  | LDR_DATA_TABLE_ENTRY_DllBase => 10
  | LDR_DATA_TABLE_ENTRY_FullDllName => 11
  | LDR_DATA_TABLE_ENTRY_InLoadOrderLinks => 12
  | LDR_DATA_TABLE_ENTRY_SizeOfImage => 13
  | OBJECT_NAME_INFORMATION_Name => 14
  | PEB_Ldr => 15
  | PEB_LDR_DATA_InLoadOrderModuleList => 16
  | PEB_ProcessParameters => 17
  | RTL_USER_PROCESS_PARAMETERS_ImagePathName => 18
  | SE_AUDIT_PROCESS_CREATION_INFO_ImageFileName => 19
  end.

Record MemberOffset := mk_member {
  m_id : member_offset_e;
  m_module : string;
  m_struc : string;
  m_member : string;
}.
Definition g_member_offsets : list MemberOffset := [
  mk_member EPROCESS_ActiveProcessLinks "nt" "_EPROCESS" "ActiveProcessLinks";
  mk_member EPROCESS_ImageFileName "nt" "_EPROCESS" "ImageFileName";
  mk_member EPROCESS_Pcb "nt" "_EPROCESS" "Pcb";
  mk_member EPROCESS_Peb "nt" "_EPROCESS" "Peb";
  mk_member EPROCESS_SeAuditProcessCreationInfo "nt" "_EPROCESS" "SeAuditProcessCreationInfo";
  mk_member EPROCESS_VadRoot "nt" "_EPROCESS" "VadRoot";
  mk_member KPCR_Prcb "nt" "_KPCR" "Prcb";
  mk_member KPRCB_CurrentThread "nt" "_KPRCB" "CurrentThread";
  mk_member KPROCESS_DirectoryTableBase "nt" "_KPROCESS" "DirectoryTableBase";
  mk_member KTHREAD_Process "nt" "_KTHREAD" "Process";
  mk_member LDR_DATA_TABLE_ENTRY_DllBase "nt" "_LDR_DATA_TABLE_ENTRY" "DllBase";
  mk_member LDR_DATA_TABLE_ENTRY_FullDllName "nt" "_LDR_DATA_TABLE_ENTRY" "FullDllName";
  mk_member LDR_DATA_TABLE_ENTRY_InLoadOrderLinks "nt" "_LDR_DATA_TABLE_ENTRY" "InLoadOrderLinks";
  mk_member LDR_DATA_TABLE_ENTRY_SizeOfImage "nt" "_LDR_DATA_TABLE_ENTRY" "SizeOfImage";
  mk_member OBJECT_NAME_INFORMATION_Name "nt" "_OBJECT_NAME_INFORMATION" "Name";
  mk_member PEB_Ldr "nt" "_PEB" "Ldr";
  mk_member PEB_LDR_DATA_InLoadOrderModuleList "nt" "_PEB_LDR_DATA" "InLoadOrderModuleList";
  mk_member PEB_ProcessParameters "nt" "_PEB" "ProcessParameters";
  mk_member RTL_USER_PROCESS_PARAMETERS_ImagePathName "nt" "_RTL_USER_PROCESS_PARAMETERS" "ImagePathName";
  mk_member SE_AUDIT_PROCESS_CREATION_INFO_ImageFileName "nt" "_SE_AUDIT_PROCESS_CREATION_INFO" "ImageFileName"
]%string.

Inductive symbol_offset_e :=
| KiSystemCall64
| PsActiveProcessHead
| PsInitialSystemProcess.
Definition SYMBOL_OFFSET_COUNT : nat := 3.
Definition symbol_idx (e : symbol_offset_e) : nat :=
  match e with
  | KiSystemCall64 => 0
  | PsActiveProcessHead => 1
  | PsInitialSystemProcess => 2
  end.

Record SymbolOffset := mk_symbol {
  s_id : symbol_offset_e;
  s_module : string;
  s_name : string;
}.
Definition g_symbol_offsets : list SymbolOffset := [
  mk_symbol KiSystemCall64 "nt" "KiSystemCall64";
  mk_symbol PsActiveProcessHead "nt" "PsActiveProcessHead";
  mk_symbol PsInitialSystemProcess "nt" "PsInitialSystemProcess"
]%string.

(** [std::array<uint64_t, N>] as a list of length [N]; [tbl_at] is the
    unchecked [operator[]] of an index in range. *)
Definition tbl_at (t : list Z) (i : nat) : Z := default 0 (t !! i).

Record OsNt := mk_nt {
  members_ : list Z;
  symbols_ : list Z;
}.
Definition member (nt : OsNt) (e : member_offset_e) : Z := tbl_at (members_ nt) (member_idx e).
Definition symbol (nt : OsNt) (e : symbol_offset_e) : Z := tbl_at (symbols_ nt) (symbol_idx e).

Section OsNt.

(** The backend the handler was built on ([core_]), and what the sources at
    hand use without declaring: [PAGE_SIZE], the image-size probe
    [pe::read_image_size], the decoder [utf8::convert] and
    [fs::path::filename] of the C++ library. *)
Variable core : IHandler.
Variable PAGE_SIZE : Z.
Variable read_image_size : list byte -> Z -> option Z.
Variable utf8_convert : list byte -> option string.
Variable path_filename : string -> string.

(** Modelled from the spec: [core.read(dst, addr, len)] of core.hpp; the
    read is issued under the current selection, [Some bytes] is a filled
    buffer and [None] a failed read. *)
Definition core_read (a : Z) (len : Z) : M (option (list byte)) :=
  fun st =>
    Ret (read_bytes (memory core (cur st)) a (Z.to_nat len),
         mk_state (cur st) (reads st ++ [mk_read (cur st) a len]) (logs st)).

(** Modelled from the spec: [core::read_ptr] of core_helpers.hpp is not part
    of the sources at hand; a pointer-width (8 byte) little-endian read
    through [core.read], absent when the read fails. *)
Definition read_ptr (a : Z) : M (option Z) :=
  buf <- core_read a 8 ;;
  ret (read_le64 <$> buf).

(** ** Kernel locator *)

(** Modelled from the spec: [utils::align<PAGE_SIZE>] rounds an address down
    to the enclosing page. *)
Definition align (x : Z) : Z := x - x mod PAGE_SIZE.

(** The [for] loop of [find_kernel], one iteration per unit of fuel:
    condition [ptr < lstar], body, step [ptr -= PAGE_SIZE]. *)
Fixpoint find_kernel_loop (fuel : nat) (lstar ptr : Z) : M (option span_t) :=
  match fuel with
  | O => fun _ => OutOfFuel
  | S fuel =>
    if ptr <? lstar then
      ok <- core_read ptr PAGE_SIZE ;;
      match ok with
      | None => ret None
      | Some buf =>
        match read_image_size buf PAGE_SIZE with
        | None => find_kernel_loop fuel lstar (sub64 ptr PAGE_SIZE)
        | Some sz => ret (Some (mk_span ptr sz))
        end
      end
    else ret None
  end.

Definition find_kernel (fuel : nat) (lstar : Z) : M (option span_t) :=
  find_kernel_loop fuel lstar (align lstar).

(** ** Bootstrap: [OsNt::setup] and [os::make_nt] *)

Definition symbol_error (so : SymbolOffset) : log_entry :=
  mk_log ERROR "unable to read %s!%s symbol offset"
         [ArgS (s_module so); ArgS (s_name so)].
Definition member_error (mo : MemberOffset) : log_entry :=
  mk_log ERROR "unable to read %s!%s.%s member offset"
         [ArgS (m_module mo); ArgS (m_struc mo); ArgS (m_member mo)].

(** First catalog loop, from index [i] on: [fail] and [symbols_] are the
    two variables the loop updates. *)
Fixpoint resolve_symbols (i : nat) (cat : list SymbolOffset)
    (fail : bool) (symbols : list Z) : M (bool * list Z) :=
  match cat with
  | [] => ret (fail, symbols)
  | so :: cat =>
    match sym_symbol core (s_module so) (s_name so) with
    | None =>
      LOG ERROR "unable to read %s!%s symbol offset"
          [ArgS (s_module so); ArgS (s_name so)] ;;;
      resolve_symbols (S i) cat true symbols
    | Some a => resolve_symbols (S i) cat fail (<[i := a]> symbols)
    end
  end.

(** Second catalog loop. *)
Fixpoint resolve_members (i : nat) (cat : list MemberOffset)
    (fail : bool) (members : list Z) : M (bool * list Z) :=
  match cat with
  | [] => ret (fail, members)
  | mo :: cat =>
    match sym_struc_offset core (m_module mo) (m_struc mo) (m_member mo) with
    | None =>
      LOG ERROR "unable to read %s!%s.%s member offset"
          [ArgS (m_module mo); ArgS (m_struc mo); ArgS (m_member mo)] ;;;
      resolve_members (S i) cat true members
    | Some o => resolve_members (S i) cat fail (<[i := o]> members)
    end
  end.

Definition mismatch_error (lstar ki : Z) : log_entry :=
  mk_log ERROR ("PDB mismatch lstar: 0x%llx pdb: 0x%llx" ++ String (ascii_of_nat 10) EmptyString)%string [ArgX lstar; ArgX ki].
Definition kernel_info (k : span_t) : log_entry :=
  mk_log INFO "kernel: 0x%016llx - 0x%016llx (%lld 0x%llx)"
         [ArgX (addr k); ArgX (add64 (addr k) (size k)); ArgX (size k); ArgX (size k)].

(** [setup] returns its verdict and the handler as it left it. *)
Definition setup (fuel : nat) (nt : OsNt) : M (bool * OsNt) :=
  match regs_read core MSR_LSTAR with
  | None => ret (false, nt)
  | Some lstar =>
    kernel <- find_kernel fuel lstar ;;
    match kernel with
    | None => FAIL (false, nt) "unable to find kernel" []
    | Some kernel =>
      LOG INFO "kernel: 0x%016llx - 0x%016llx (%lld 0x%llx)"
          [ArgX (addr kernel); ArgX (add64 (addr kernel) (size kernel));
           ArgX (size kernel); ArgX (size kernel)] ;;;
      ok <- core_read (addr kernel) (size kernel) ;;
      match ok with
      | None => FAIL (false, nt) "unable to read kernel module" []
      | Some buffer =>
        if negb (sym_insert core "nt" kernel buffer)
        then FAIL (false, nt) "unable to load symbols from kernel module" []
        else
          s <- resolve_symbols 0 g_symbol_offsets false (symbols_ nt) ;;
          m <- resolve_members 0 g_member_offsets (fst s) (members_ nt) ;;
          let nt' := mk_nt (snd m) (snd s) in
          if fst m then ret (false, nt')
          else
            let ki := symbol nt' KiSystemCall64 in
            if negb (lstar =? ki)
            then FAIL (false, nt')
                      ("PDB mismatch lstar: 0x%llx pdb: 0x%llx" ++ String (ascii_of_nat 10) EmptyString)%string [ArgX lstar; ArgX ki]
            else ret (true, nt')
      end
    end
  end.

(** [std::make_unique<OsNt>(core)]: the constructor initialises [core_]
    only, so both arrays start with indeterminate content ([gm], [gs]);
    the pointer itself is never null. *)
Definition make_unique (gm gs : nat -> Z) : OsNt :=
  mk_nt (gm <$> seq 0 MEMBER_OFFSET_COUNT) (gs <$> seq 0 SYMBOL_OFFSET_COUNT).

Definition make_nt (fuel : nat) (gm gs : nat -> Z) : M (option OsNt) :=
  let nt := make_unique gm gs in
  r <- setup fuel nt ;;
  if negb (fst r) then ret None else ret (Some (snd r)).

(** ** Process walker *)

Section walker.

Variable nt : OsNt.

(** [link != head] between an [opt<uint64_t>] and a [uint64_t]: an empty
    optional differs from every value. *)
Definition opt_ne (link : option Z) (head : Z) : bool :=
  match link with
  | Some l => negb (l =? head)
  | None => true
  end.

(** The [for] loop of [list_procs].  The visitor works on an accumulator of
    its own. *)
Fixpoint list_procs_loop {A} (fuel : nat) (on_process : proc_t -> A -> A * walk_e)
    (head : Z) (link : option Z) (acc : A) : M A :=
  match fuel with
  | O => fun _ => OutOfFuel
  | S fuel =>
    if opt_ne link head then
      match link with
      | None => fun _ => Undefined
      | Some l =>
        let eproc := sub64 l (member nt EPROCESS_ActiveProcessLinks) in
        dtb <- read_ptr (add64 (add64 eproc (member nt EPROCESS_Pcb))
                               (member nt KPROCESS_DirectoryTableBase)) ;;
        match dtb with
        | None =>
          LOG ERROR "unable to read KPROCESS.DirectoryTableBase from 0x%llx"
              [ArgX eproc] ;;;
          next <- read_ptr l ;;
          list_procs_loop fuel on_process head next acc
        | Some d =>
          let '(acc', err) := on_process (mk_proc eproc d) acc in
          match err with
          | WALK_STOP => ret acc'
          | WALK_NEXT =>
            next <- read_ptr l ;;
            list_procs_loop fuel on_process head next acc'
          end
        end
      end
    else ret acc
  end.

Definition list_procs {A} (fuel : nat) (on_process : proc_t -> A -> A * walk_e)
    (acc : A) : M (bool * A) :=
  let head := symbol nt PsActiveProcessHead in
  link <- read_ptr head ;;
  acc' <- list_procs_loop fuel on_process head link acc ;;
  ret (true, acc').

(** ** Current process *)

Definition read_gs_base : M (option Z) :=
  match regs_read core MSR_GS_BASE with
  | None => ret None
  | Some gs =>
    if negb (Z.land gs 0xFFF0000000000000 =? 0) then ret (Some gs)
    else
      match regs_read core MSR_KERNEL_GS_BASE with
      | None => ret None
      | Some gs => ret (Some gs)
      end
  end.

Definition get_current_proc : M (option proc_t) :=
  gs <- read_gs_base ;;
  match gs with
  | None => ret None
  | Some gs =>
    current_thread <- read_ptr (add64 (add64 gs (member nt KPCR_Prcb))
                                      (member nt KPRCB_CurrentThread)) ;;
    match current_thread with
    | None => FAIL None "unable to read KPCR.Prcb.CurrentThread" []
    | Some current_thread =>
      kproc <- read_ptr (add64 current_thread (member nt KTHREAD_Process)) ;;
      match kproc with
      | None => FAIL None "unable to read KTHREAD.Process" []
      | Some kproc =>
        dtb <- read_ptr (add64 kproc (member nt KPROCESS_DirectoryTableBase)) ;;
        match dtb with
        | None => FAIL None "unable to read KPROCESS.DirectoryTableBase" []
        | Some dtb =>
          let eproc := sub64 kproc (member nt EPROCESS_Pcb) in
          ret (Some (mk_proc eproc dtb))
        end
      end
    end
  end.

(** ** Names *)

(** The [UnicodeString] struct is 16 bytes: [length] at 0, [max_length] at 2,
    padding, [buffer] at 8. *)
Definition read_unicode_string (unicode_string : Z) : M (option string) :=
  ok <- core_read unicode_string 16 ;;
  match ok with
  | None => FAIL None "unable to read UNICODE_STRING" []
  | Some us =>
    let length := read_le16 us in
    let max_length := read_le16 (drop 2 us) in
    let buffer := read_le64 (drop 8 us) in
    if max_length <? length then FAIL None "corrupted UNICODE_STRING" []
    else
      ok <- core_read buffer length ;;
      match ok with
      | None => FAIL None "unable to read UNICODE_STRING.buffer" []
      | Some buf => ret (utf8_convert buf)
      end
  end.

(** [std::string{buffer}]: the characters before the first NUL. *)
Fixpoint c_string (bs : list byte) : string :=
  match bs with
  | [] => EmptyString
  | b :: bs =>
    match b with
    | Byte.x00 => EmptyString
    | _ => String (ascii_of_byte b) (c_string bs)
    end
  end.

Definition get_proc_name (proc : proc_t) : M (option string) :=
  ok <- core_read (add64 (id proc) (member nt EPROCESS_ImageFileName)) 15 ;;
  match ok with
  | None => ret None
  | Some buffer =>
    let name := c_string (<[14%nat := Byte.x00]> buffer) in
    if (String.length name <? 14)%nat then ret (Some name)
    else
      image_file_name <-
        read_ptr (add64 (add64 (id proc) (member nt EPROCESS_SeAuditProcessCreationInfo))
                        (member nt SE_AUDIT_PROCESS_CREATION_INFO_ImageFileName)) ;;
      match image_file_name with
      | None => ret (Some name)
      | Some image_file_name =>
        path <- read_unicode_string
                  (add64 image_file_name (member nt OBJECT_NAME_INFORMATION_Name)) ;;
        match path with
        | None => ret (Some name)
        | Some path => ret (Some (path_filename path))
        end
      end
  end.

(** ** Module walker *)

(** The [for] loop of [list_mods]: condition [link && link != head]. *)
Fixpoint list_mods_loop {A} (fuel : nat) (on_mod : mod_t -> A -> A * walk_e)
    (head : Z) (link : option Z) (acc : A) : M A :=
  match fuel with
  | O => fun _ => OutOfFuel
  | S fuel =>
    match link with
    | None => ret acc
    | Some l =>
      if negb (l =? head) then
        let '(acc', err) :=
          on_mod (sub64 l (member nt LDR_DATA_TABLE_ENTRY_InLoadOrderLinks)) acc in
        match err with
        | WALK_STOP => ret acc'
        | WALK_NEXT =>
          next <- read_ptr l ;;
          list_mods_loop fuel on_mod head next acc'
        end
      else ret acc
    end
  end.

Definition list_mods {A} (fuel : nat) (proc : proc_t)
    (on_mod : mod_t -> A -> A * walk_e) (acc : A) : M (bool * A) :=
  peb <- read_ptr (add64 (id proc) (member nt EPROCESS_Peb)) ;;
  match peb with
  | None => FAIL (false, acc) "unable to read EPROCESS.Peb" []
  | Some peb =>
    if peb =? 0 then ret (true, acc)
    else
      ctx <- switch_process proc ;;
      scoped ctx (
        ldr <- read_ptr (add64 peb (member nt PEB_Ldr)) ;;
        match ldr with
        | None => FAIL (false, acc) "unable to read PEB.Ldr" []
        | Some ldr =>
          let head := add64 ldr (member nt PEB_LDR_DATA_InLoadOrderModuleList) in
          link <- read_ptr head ;;
          acc' <- list_mods_loop fuel on_mod head link acc ;;
          ret (true, acc')
        end)
  end.

Definition get_mod_name (proc : proc_t) (mod_ : mod_t) : M (option string) :=
  ctx <- switch_process proc ;;
  scoped ctx (read_unicode_string (add64 mod_ (member nt LDR_DATA_TABLE_ENTRY_FullDllName))).

Definition has_virtual (proc : proc_t) : M bool :=
  vad_root <- read_ptr (add64 (id proc) (member nt EPROCESS_VadRoot)) ;;
  ret (match vad_root with Some v => negb (v =? 0) | None => false end).

Definition get_mod_span (proc : proc_t) (mod_ : mod_t) : M (option span_t) :=
  ctx <- switch_process proc ;;
  scoped ctx (
    base <- read_ptr (add64 mod_ (member nt LDR_DATA_TABLE_ENTRY_DllBase)) ;;
    match base with
    | None => ret None
    | Some base =>
      sz <- read_ptr (add64 mod_ (member nt LDR_DATA_TABLE_ENTRY_SizeOfImage)) ;;
      match sz with
      | None => ret None
      | Some sz => ret (Some (mk_span base sz))
      end
    end).

End walker.

End OsNt.

(** ** Vocabulary of the statements *)

Section vocabulary.

Variable core : IHandler.
Variable PAGE_SIZE : Z.
Variable read_image_size : list byte -> Z -> option Z.

(** What probing the page at [ptr] tells the locator: [None] when the page
    cannot be read, [Some None] when it holds no image header, and
    [Some (Some sz)] when it holds one that declares the size [sz]. *)
Definition probe_page (ctx : option proc_t) (ptr : Z) : option (option Z) :=
  match read_bytes (memory core ctx) ptr (Z.to_nat PAGE_SIZE) with
  | None => None
  | Some buf => Some (read_image_size buf PAGE_SIZE)
  end.

(** The [k] pages from [ptr] downward are readable and hold no header. *)
Fixpoint blank_run (ctx : option proc_t) (ptr : Z) (k : nat) : bool :=
  match k with
  | O => true
  | S k =>
    match probe_page ctx ptr with
    | Some None => blank_run ctx (ptr - PAGE_SIZE) k
    | _ => false
    end
  end.

(** The page reads of a scan of [n] pages from [ptr] downward. *)
Fixpoint probes (ctx : option proc_t) (ptr : Z) (n : nat) : list read_ev :=
  match n with
  | O => []
  | S n => mk_read ctx ptr PAGE_SIZE :: probes ctx (ptr - PAGE_SIZE) n
  end.

(** The catalog entries the symbol store cannot resolve. *)
Definition symbol_unresolved (so : SymbolOffset) : bool :=
  match sym_symbol core (s_module so) (s_name so) with
  | None => true
  | Some _ => false
  end.
Definition member_unresolved (mo : MemberOffset) : bool :=
  match sym_struc_offset core (m_module mo) (m_struc mo) (m_member mo) with
  | None => true
  | Some _ => false
  end.
Definition missing_symbols : list SymbolOffset :=
  List.filter symbol_unresolved g_symbol_offsets.
Definition missing_members : list MemberOffset :=
  List.filter member_unresolved g_member_offsets.

(** A fully populated offset table: both arrays have their full size and
    hold, at the key of every catalog entry, what the symbol store resolves
    that entry to. *)
Definition fully_populated (nt : OsNt) : Prop :=
  length (symbols_ nt) = SYMBOL_OFFSET_COUNT
  /\ length (members_ nt) = MEMBER_OFFSET_COUNT
  /\ Forall (fun so => sym_symbol core (s_module so) (s_name so)
                       = Some (symbol nt (s_id so))) g_symbol_offsets
  /\ Forall (fun mo => sym_struc_offset core (m_module mo) (m_struc mo) (m_member mo)
                       = Some (member nt (m_id mo))) g_member_offsets.

(** The pointer stored at [a] in the address space [ctx], if readable. *)
Definition peek (ctx : option proc_t) (a : Z) : option Z :=
  read_le64 <$> read_bytes (memory core ctx) a 8.

(** The state after the reads [rs] and the diagnostics [ls]. *)
Definition after (st : state) (rs : list read_ev) (ls : list log_entry) : state :=
  mk_state (cur st) (reads st ++ rs) (logs st ++ ls).

(** A pointer read at [a] in the trace. *)
Definition ptr_read (st : state) (a : Z) : read_ev := mk_read (cur st) a 8.

(** No NUL character in a string. *)
Fixpoint no_nul (s : string) : Prop :=
  match s with
  | EmptyString => True
  | String c s => c <> Ascii.zero /\ no_nul s
  end.

End vocabulary.

Section name_vocabulary.

Variable core : IHandler.
Variable utf8_convert : list byte -> option string.
Variable nt : OsNt.

(** The text of the Unicode-string descriptor at [a]: the descriptor is
    readable, its length does not exceed its capacity, its buffer is
    readable and decodes. *)
Definition unicode_text (ctx : option proc_t) (a : Z) : option string :=
  match read_bytes (memory core ctx) a 16 with
  | None => None
  | Some us =>
    if read_le16 (drop 2 us) <? read_le16 us then None
    else
      match read_bytes (memory core ctx) (read_le64 (drop 8 us))
                       (Z.to_nat (read_le16 us)) with
      | None => None
      | Some buf => utf8_convert buf
      end
  end.

(** The full image path of a process, through its audit information. *)
Definition full_path (ctx : option proc_t) (proc : proc_t) : option string :=
  match peek core ctx
          (add64 (add64 (id proc) (member nt EPROCESS_SeAuditProcessCreationInfo))
                 (member nt SE_AUDIT_PROCESS_CREATION_INFO_ImageFileName)) with
  | None => None
  | Some image_file_name =>
    unicode_text ctx (add64 image_file_name (member nt OBJECT_NAME_INFORMATION_Name))
  end.

End name_vocabulary.

(** ** Concrete guests

    Small guests on which the model is run: memory is given by segments,
    registers and the symbol store by tables. *)

Definition PAGE : Z := 4096.

(** Little-endian encoding of [v] over [n] bytes. *)
Fixpoint le_bytes (n : nat) (v : Z) : list byte :=
  match n with
  | O => []
  | S n => byte_of_Z (v mod 256) :: le_bytes n (v / 256)
  end.

Definition zeros (n : nat) : list byte := replicate n Byte.x00.

(** Memory made of segments [(base, bytes)]; the first segment that covers
    an address wins. *)
Fixpoint mem_of (segs : list (Z * list byte)) (a : Z) : option byte :=
  match segs with
  | [] => None
  | (base, bs) :: segs =>
    if (base <=? a) && (a <? base + Z.of_nat (length bs))
    then bs !! Z.to_nat (a - base)
    else mem_of segs a
  end.

(** An image-size probe that accepts a buffer starting with the two bytes
    [MZ] and declares [0x3000] bytes. *)
Definition probe_mz (buf : list byte) (len : Z) : option Z :=
  match buf with
  | Byte.x4d :: Byte.x5a :: _ => Some 0x3000
  | _ => None
  end.

(** A guest whose kernel image sits at [0x2000 .. 0x4fff]; the page below
    it is not mapped. *)
Definition kernel_image : list byte :=
  [Byte.x4d; Byte.x5a] ++ zeros (Z.to_nat 12286).
Definition mem_kernel (a : Z) : option byte :=
  if (0x2000 <=? a) && (a <? 0x5000)
  then Some (if a =? 0x2000 then Byte.x4d else if a =? 0x2001 then Byte.x5a else Byte.x00)
  else None.

(** The guest of the locator scenarios: that memory and nothing else. *)
Definition guest_kernel : IHandler :=
  Build_IHandler (fun _ => None) (fun _ => mem_kernel)
    (fun _ _ _ => true) (fun _ _ => None) (fun _ _ _ => None).

(** The state before a call: the selection of the running CPU, no read and
    no diagnostic yet. *)
Definition st0 : state := mk_state None [] [].

(** Registers given by the three values. *)
Definition regs_of (lstar gs kgs : option Z) (r : msr_e) : option Z :=
  match r with
  | MSR_LSTAR => lstar
  | MSR_GS_BASE => gs
  | MSR_KERNEL_GS_BASE => kgs
  end.

(** A symbol store given by two tables. *)
Definition symbol_of (tbl : list (string * Z)) (m n : string) : option Z :=
  if String.eqb m "nt"
  then snd <$> List.find (fun e => String.eqb (fst e) n) tbl
  else None.
Definition struc_of (tbl : list (string * string * Z)) (m s f : string) : option Z :=
  if String.eqb m "nt"
  then snd <$> List.find (fun e => String.eqb (fst (fst e)) s
                                   && String.eqb (snd (fst e)) f) tbl
  else None.

Definition member_table : list (string * string * Z) := [
  ("_EPROCESS", "ActiveProcessLinks", 0x2f0);
  ("_EPROCESS", "ImageFileName", 0x450);
  ("_EPROCESS", "Pcb", 0);
  ("_EPROCESS", "Peb", 0x3f8);
  ("_EPROCESS", "SeAuditProcessCreationInfo", 0x468);
  ("_EPROCESS", "VadRoot", 0x658);
  ("_KPCR", "Prcb", 0x180);
  ("_KPRCB", "CurrentThread", 0x8);
  ("_KPROCESS", "DirectoryTableBase", 0x28);
  ("_KTHREAD", "Process", 0x220);
  ("_LDR_DATA_TABLE_ENTRY", "DllBase", 0x30);
  ("_LDR_DATA_TABLE_ENTRY", "FullDllName", 0x48);
  ("_LDR_DATA_TABLE_ENTRY", "InLoadOrderLinks", 0);
  ("_LDR_DATA_TABLE_ENTRY", "SizeOfImage", 0x40);
  ("_OBJECT_NAME_INFORMATION", "Name", 0);
  ("_PEB", "Ldr", 0x18);
  ("_PEB_LDR_DATA", "InLoadOrderModuleList", 0x10);
  ("_PEB", "ProcessParameters", 0x20);
  ("_RTL_USER_PROCESS_PARAMETERS", "ImagePathName", 0x60);
  ("_SE_AUDIT_PROCESS_CREATION_INFO", "ImageFileName", 0)
]%string.

Definition symbol_table (ki : Z) : list (string * Z) := [
  ("KiSystemCall64", ki);
  ("PsActiveProcessHead", 0x4800);
  ("PsInitialSystemProcess", 0x4900)
]%string.

(** The guest of the bootstrap scenarios: kernel at [0x2000] of declared size
    [0x3000], syscall entry at [0x4200], debug information that places
    [KiSystemCall64] at [ki]. *)
Definition guest_boot (ki : Z) : IHandler :=
  Build_IHandler (regs_of (Some 0x4200) None None) (fun _ => mem_kernel)
    (fun _ _ _ => true) (symbol_of (symbol_table ki)) (struc_of member_table).

(** The same guest with debug information that lacks one symbol and two
    members. *)
Definition guest_partial : IHandler :=
  Build_IHandler (regs_of (Some 0x4200) None None) (fun _ => mem_kernel)
    (fun _ _ _ => true)
    (symbol_of [("KiSystemCall64", 0x4200); ("PsActiveProcessHead", 0x4800)]%string)
    (struc_of (List.filter
                 (fun e => negb (String.eqb (snd (fst e)) "VadRoot"
                                 || String.eqb (snd (fst e)) "Ldr")) member_table)).

(** The offset table of the walker scenarios. *)
Definition nt_win : OsNt :=
  mk_nt (map snd member_table) (map snd (symbol_table 0x4200)).

Definition kernel_span : span_t := mk_span 0x2000 0x3000.
Definition st_located : state :=
  mk_state None
    [mk_read None 0x4000 PAGE; mk_read None 0x3000 PAGE; mk_read None 0x2000 PAGE] [].

(** Stand-ins for the two library functions on the concrete guests: a
    decoder for UTF-16LE text made of ASCII characters (a zero code unit
    becomes the NUL character), and the final component of a path as
    [std::experimental::filesystem] gives it on a host whose separator is
    [/]: nothing for the empty path, [/] for a path made of separators
    only, [.] after a trailing separator, and otherwise the text after the
    last separator. *)
Fixpoint decode_ascii16 (bs : list byte) : option string :=
  match bs with
  | [] => Some EmptyString
  | lo :: Byte.x00 :: rest =>
    if byte_val lo <? 128
    then String (ascii_of_byte lo) <$> decode_ascii16 rest
    else None
  | _ => None
  end.

Fixpoint after_last_slash (acc : string) (s : string) : string :=
  match s with
  | EmptyString => acc
  | String c s =>
    if Ascii.eqb c "/"
    then after_last_slash EmptyString s
    else after_last_slash (acc ++ String c EmptyString) s
  end.
Fixpoint only_slashes (s : string) : bool :=
  match s with
  | EmptyString => true
  | String c s => Ascii.eqb c "/" && only_slashes s
  end.
Definition last_component (s : string) : string :=
  match s with
  | EmptyString => EmptyString
  | _ =>
    if only_slashes s then "/"%string
    else
      match after_last_slash EmptyString s with
      | EmptyString => "."%string
      | t => t
      end
  end.

Definition bytes_of_string (s : string) : list byte :=
  map byte_of_ascii (list_ascii_of_string s).
Definition utf16_of_string (s : string) : list byte :=
  flat_map (fun c => [byte_of_ascii c; Byte.x00]) (list_ascii_of_string s).

(** A 16-byte Unicode-string descriptor. *)
Definition descriptor (len max_len buffer : Z) : list byte :=
  le_bytes 2 len ++ le_bytes 2 max_len ++ zeros 4 ++ le_bytes 8 buffer.

(** The visitor that records what it is shown, and the one that stops at
    the first element. *)
Definition collect {T} (x : T) (acc : list T) : list T * walk_e := (acc ++ [x], WALK_NEXT).
Definition first_only {T} (x : T) (acc : list T) : list T * walk_e := (acc ++ [x], WALK_STOP).

(** Kernel memory with three processes on the active list (head at
    [0x4800]).  [0x10000] has the 14-character image name [MemCompression]
    and an empty path in its audit information; of [0x20000] only the list
    link is mapped; [0x30000] has a truncated image name and its full path
    in its audit information.  The path is written with [/], the one
    separator every host of the library agrees on. *)
Definition full_image_path : string :=
  "/Device/HarddiskVolume2/Windows/System32/SecurityHealthService.exe".
Definition kernel_segments : list (Z * list byte) := [
  (0x4800, le_bytes 8 0x102f0);
  (0x10028, le_bytes 8 0x1aa000);
  (0x102f0, le_bytes 8 0x202f0);
  (0x103f8, le_bytes 8 0x7f000);
  (0x10450, bytes_of_string "MemCompression" ++ zeros 2);
  (0x10468, le_bytes 8 0x50000);
  (0x50000, descriptor 0 0 0);
  (0x202f0, le_bytes 8 0x302f0);
  (0x30028, le_bytes 8 0x3aa000);
  (0x302f0, le_bytes 8 0x4800);
  (0x303f8, le_bytes 8 0x7f000);
  (0x30450, bytes_of_string "SecurityHealthS" ++ zeros 1);
  (0x30468, le_bytes 8 0x60000);
  (0x60000, descriptor 132 134 0x60010);
  (0x60010, utf16_of_string full_image_path ++ zeros 2);
  (0x70000, descriptor 8 4 0x60010);
  (0xfffff80000a00188, le_bytes 8 0xffffe00000001000);
  (0xffffe00000001220, le_bytes 8 0xffffe00000010000);
  (0xffffe00000010028, le_bytes 8 0x1ab000)
].

(** User memory of the process [0x10000]: a PEB at [0x7f000], its loader
    data at [0x7e000], and two module entries [0x7d000] and [0x7c000] on
    the load-order list.  The four bytes after the 32-bit [SizeOfImage] of
    the first entry are not zero. *)
Definition user_segments : list (Z * list byte) := [
  (0x7f018, le_bytes 8 0x7e000);
  (0x7e010, le_bytes 8 0x7d000);
  (0x7d000, le_bytes 8 0x7c000);
  (0x7d030, le_bytes 8 0x400000);
  (0x7d040, le_bytes 4 0x12000 ++ le_bytes 4 0xdeadbeef);
  (0x7d048, descriptor 8 4 0x7d100);
  (0x7c000, le_bytes 8 0x7e010);
  (0x7c030, le_bytes 8 0x7ff00000);
  (0x7c040, le_bytes 4 0x1f000 ++ zeros 4)
].

Definition proc_a : proc_t := mk_proc 0x10000 0x1aa000.
Definition proc_c : proc_t := mk_proc 0x30000 0x3aa000.

Definition guest_memory (ctx : option proc_t) : Z -> option byte :=
  match ctx with
  | Some p => if dtb p =? 0x1aa000 then mem_of (user_segments ++ kernel_segments)
              else mem_of kernel_segments
  | None => mem_of kernel_segments
  end.

(** The running guest: GS_BASE holds a user-space value, KERNEL_GS_BASE the
    address of the processor control region. *)
Definition guest : IHandler :=
  Build_IHandler (regs_of (Some 0x4200) (Some 0x7ff000) (Some 0xfffff80000a00000))
    guest_memory (fun _ _ _ => true)
    (symbol_of (symbol_table 0x4200)) (struc_of member_table).

Definition guest_broken : IHandler :=
  Build_IHandler (regs_of None None None)
    (fun _ => mem_of [(0x4800, le_bytes 8 0x102f0); (0x10028, le_bytes 8 0x1aa000)])
    (fun _ _ _ => true) (fun _ _ => None) (fun _ _ _ => None).

(** Two states in which a process is already selected. *)
Definition st_other : state := mk_state (Some proc_c) [] [].
Definition st_first : state := mk_state (Some proc_a) [] [].

(** ** Lookup by name ([OsNt::get_proc])

    The visitor of [get_proc] calls back into the handler, so the walk is
    given once more for a visitor that reads guest memory itself. *)

Section lookup.

Variable core : IHandler.
Variable utf8_convert : list byte -> option string.
Variable path_filename : string -> string.
Variable nt : OsNt.

(** The [for] loop of [list_procs] for a visitor that runs in the same
    state as the walk. *)
Fixpoint walk_procs {A} (fuel : nat) (on_process : proc_t -> A -> M (A * walk_e))
    (head : Z) (link : option Z) (acc : A) : M A :=
  match fuel with
  | O => fun _ => OutOfFuel
  | S fuel =>
    if opt_ne link head then
      match link with
      | None => fun _ => Undefined
      | Some l =>
        let eproc := sub64 l (member nt EPROCESS_ActiveProcessLinks) in
        dtb <- read_ptr core (add64 (add64 eproc (member nt EPROCESS_Pcb))
                                    (member nt KPROCESS_DirectoryTableBase)) ;;
        match dtb with
        | None =>
          LOG ERROR "unable to read KPROCESS.DirectoryTableBase from 0x%llx"
              [ArgX eproc] ;;;
          next <- read_ptr core l ;;
          walk_procs fuel on_process head next acc
        | Some d =>
          r <- on_process (mk_proc eproc d) acc ;;
          match snd r with
          | WALK_STOP => ret (fst r)
          | WALK_NEXT =>
            next <- read_ptr core l ;;
            walk_procs fuel on_process head next (fst r)
          end
        end
      end
    else ret acc
  end.

Definition list_procs_with {A} (fuel : nat) (on_process : proc_t -> A -> M (A * walk_e))
    (acc : A) : M (bool * A) :=
  let head := symbol nt PsActiveProcessHead in
  link <- read_ptr core head ;;
  acc' <- walk_procs fuel on_process head link acc ;;
  ret (true, acc').

(** [got != name] between an [opt<std::string>] and a [std::string]. *)
Definition name_ne (got : option string) (name : string) : bool :=
  match got with
  | Some g => negb (String.eqb g name)
  | None => true
  end.

(** The lambda of [get_proc]; its captured variable [found] is the
    accumulator. *)
Definition get_proc_visit (name : string) (proc : proc_t) (found : option proc_t) :
    M (option proc_t * walk_e) :=
  got <- get_proc_name core utf8_convert path_filename nt proc ;;
  if name_ne got name then ret (found, WALK_NEXT)
  else ret (Some proc, WALK_STOP).

(** [get_proc] ignores what [list_procs] returns and hands back [found]. *)
Definition get_proc (fuel : nat) (name : string) : M (option proc_t) :=
  r <- list_procs_with fuel (get_proc_visit name) None ;;
  ret (snd r).

End lookup.

(** ** More vocabulary *)

Section list_vocabulary.

Variable core : IHandler.
Variable utf8_convert : list byte -> option string.
Variable path_filename : string -> string.
Variable nt : OsNt.

(** A linked list in guest memory: the link stored at [a] leads to the
    first of [nodes], every node's link leads to the next one, none of the
    nodes is [head], and reading the link of the last node gives
    [ending]. *)
Fixpoint linked (ctx : option proc_t) (head a : Z) (nodes : list Z)
    (ending : option Z) : Prop :=
  match nodes with
  | [] => peek core ctx a = ending
  | l :: rest => peek core ctx a = Some l /\ l <> head /\ linked ctx head l rest ending
  end.

(** A visitor shown the elements of a list in order, until it says stop. *)
Fixpoint visit {A T} (f : T -> A -> A * walk_e) (xs : list T) (acc : A) : A :=
  match xs with
  | [] => acc
  | x :: xs =>
    match f x acc with
    | (acc', WALK_STOP) => acc'
    | (acc', WALK_NEXT) => visit f xs acc'
    end
  end.

(** The process handle of the list node at [l], when its page-table root
    can be read. *)
Definition proc_at (ctx : option proc_t) (l : Z) : option proc_t :=
  let eproc := sub64 l (member nt EPROCESS_ActiveProcessLinks) in
  mk_proc eproc <$> peek core ctx (add64 (add64 eproc (member nt EPROCESS_Pcb))
                                         (member nt KPROCESS_DirectoryTableBase)).

(** The module handle of the list node at [l]. *)
Definition mod_at (l : Z) : mod_t :=
  sub64 l (member nt LDR_DATA_TABLE_ENTRY_InLoadOrderLinks).

(** The name of a process as a function of guest memory. *)
Definition proc_name (ctx : option proc_t) (proc : proc_t) : option string :=
  match read_bytes (memory core ctx)
                   (add64 (id proc) (member nt EPROCESS_ImageFileName)) 15 with
  | None => None
  | Some buffer =>
    let name := c_string (<[14%nat := Byte.x00]> buffer) in
    if (String.length name <? 14)%nat then Some name
    else Some (match full_path core utf8_convert nt ctx proc with
               | Some path => path_filename path
               | None => name
               end)
  end.





(** The processes of a list whose name is [name]. *)
Definition named (ctx : option proc_t) (name : string) (p : proc_t) : bool :=
  negb (name_ne (proc_name ctx p) name).

End list_vocabulary.

(** ** More concrete guests *)

(** A guest whose LSTAR points into unmapped memory, one whose register
    cannot be read, and one that refuses the kernel image. *)
Definition guest_unmapped : IHandler :=
  Build_IHandler (regs_of (Some 0x4200) None None) (fun _ _ => None)
    (fun _ _ _ => true) (fun _ _ => None) (fun _ _ _ => None).
Definition guest_no_debug_info : IHandler :=
  Build_IHandler (regs_of (Some 0x4200) None None) (fun _ => mem_kernel)
    (fun _ _ _ => false) (symbol_of (symbol_table 0x4200)) (struc_of member_table).

(** Memory that is mapped everywhere and holds zeros, and a probe that
    never finds a header. *)
Definition guest_blank : IHandler :=
  Build_IHandler (regs_of None None None) (fun _ _ => Some Byte.x00)
    (fun _ _ _ => true) (fun _ _ => None) (fun _ _ _ => None).
Definition probe_none (buf : list byte) (len : Z) : option Z := None.

(** A guest with the system process alone at [0x40000]: a short image
    name, no PEB and no VAD root. *)
Definition proc_sys : proc_t := mk_proc 0x40000 0x1ab000.
Definition guest_system : IHandler :=
  Build_IHandler (regs_of None None None)
    (fun _ => mem_of [(0x403f8, le_bytes 8 0);
                      (0x40450, bytes_of_string "System" ++ zeros 10);
                      (0x40658, le_bytes 8 0)])
    (fun _ _ _ => true) (fun _ _ => None) (fun _ _ _ => None).

(** The guest of the bootstrap scenarios with a page-aligned syscall entry:
    LSTAR and [KiSystemCall64] are both [0x4000]. *)
Definition guest_aligned : IHandler :=
  Build_IHandler (regs_of (Some 0x4000) None None) (fun _ => mem_kernel)
    (fun _ _ _ => true) (symbol_of (symbol_table 0x4000)) (struc_of member_table).


(** The list nodes of the three processes of [guest], and of the two
    modules of its first process. *)
Definition proc_nodes : list Z := [0x102f0; 0x202f0; 0x302f0].
Definition mod_nodes : list Z := [0x7d000; 0x7c000].

(** ** Properties *)

Section properties.

Variable core : IHandler.
Variable PAGE_SIZE : Z.
Variable read_image_size : list byte -> Z -> option Z.
Variable utf8_convert : list byte -> option string.
Variable path_filename : string -> string.

Ltac run := unfold bind, ret, FAIL, LOG, core_read, read_ptr; simpl.

Lemma find_kernel_loop_below fuel lstar ptr st sp st' :
  find_kernel_loop core PAGE_SIZE read_image_size fuel lstar ptr st = Ret (Some sp, st') ->
  addr sp < lstar.
Proof.
  revert ptr st. induction fuel as [|fuel IH]; intros ptr st; simpl; [discriminate|].
  destruct (Z.ltb_spec ptr lstar) as [Hlt|Hge]; [|unfold ret; congruence].
  run. destruct (read_bytes _ _ _) as [buf|]; [|congruence].
  destruct (read_image_size buf PAGE_SIZE) as [sz|].
  - intros [= <- <-]. exact Hlt.
  - apply IH.
Qed.

Lemma find_kernel_loop_step fuel lstar ptr st buf :
  ptr < lstar ->
  read_bytes (memory core (cur st)) ptr (Z.to_nat PAGE_SIZE) = Some buf ->
  read_image_size buf PAGE_SIZE = None ->
  find_kernel_loop core PAGE_SIZE read_image_size (S fuel) lstar ptr st
  = find_kernel_loop core PAGE_SIZE read_image_size fuel lstar (sub64 ptr PAGE_SIZE)
      (mk_state (cur st) (reads st ++ [mk_read (cur st) ptr PAGE_SIZE]) (logs st)).
Proof.
  intros Hlt Hrd Hsz. cbn [find_kernel_loop].
  apply Z.ltb_lt in Hlt as ->. run. rewrite Hrd, Hsz. reflexivity.
Qed.

Lemma find_kernel_loop_scan k : forall fuel lstar ptr st,
  0 < PAGE_SIZE -> ptr < lstar ->
  Z.of_nat k * PAGE_SIZE <= ptr < U64 ->
  (k < fuel)%nat ->
  blank_run core PAGE_SIZE read_image_size (cur st) ptr k = true ->
  let page := ptr - Z.of_nat k * PAGE_SIZE in
  let st' := mk_state (cur st) (reads st ++ probes PAGE_SIZE (cur st) ptr (S k)) (logs st) in
  (probe_page core PAGE_SIZE read_image_size (cur st) page = None ->
   find_kernel_loop core PAGE_SIZE read_image_size fuel lstar ptr st = Ret (None, st'))
  /\ (forall sz, probe_page core PAGE_SIZE read_image_size (cur st) page = Some (Some sz) ->
      find_kernel_loop core PAGE_SIZE read_image_size fuel lstar ptr st
      = Ret (Some (mk_span page sz), st')).
Proof.
  induction k as [|k IH]; intros fuel lstar ptr st Hp Hlt Hr Hf Hb.
  - destruct fuel as [|fuel]; [lia|].
    replace (ptr - Z.of_nat 0 * PAGE_SIZE) with ptr by lia.
    cbn [find_kernel_loop probes].
    apply Z.ltb_lt in Hlt as ->. unfold probe_page. run.
    destruct (read_bytes _ _ _) as [buf|]; split; try congruence.
    intros sz [= ->]. reflexivity.
  - destruct fuel as [|fuel]; [lia|].
    cbn [blank_run] in Hb. unfold probe_page in Hb.
    destruct (read_bytes _ _ _) as [buf|] eqn:Hrd; [|discriminate].
    destruct (read_image_size buf PAGE_SIZE) as [sz|] eqn:Hsz; [discriminate|].
    assert (Hsub : sub64 ptr PAGE_SIZE = ptr - PAGE_SIZE).
    { unfold sub64, wrap64. apply Z.mod_small. lia. }
    rewrite (find_kernel_loop_step fuel lstar ptr st buf Hlt Hrd Hsz), Hsub.
    replace (ptr - Z.of_nat (S k) * PAGE_SIZE)
      with (ptr - PAGE_SIZE - Z.of_nat k * PAGE_SIZE) by lia.
    assert (Hpr : forall n, probes PAGE_SIZE (cur st) ptr (S n)
                  = [mk_read (cur st) ptr PAGE_SIZE]
                    ++ probes PAGE_SIZE (cur st) (ptr - PAGE_SIZE) n) by reflexivity.
    rewrite (Hpr (S k)), app_assoc.
    apply (IH fuel lstar (ptr - PAGE_SIZE) (mk_state (cur st) _ (logs st))); try lia.
    exact Hb.
Qed.

(** X18.  For a register value strictly inside a page the
    locator starts at the enclosing page and probes one page after the
    other downward: when the [k] pages from the enclosing page on are
    readable and hold no header, the scan ends at the next page below,
    with an absent result if that page cannot be read and with that page
    and the declared size if it holds a header; the page reads issued are
    exactly those [k+1] pages in descending order.  For every register
    value, a returned span starts below the register value. *)
Theorem find_kernel_backward_scan (fuel : nat) (lstar : Z) (st : state) (k : nat) :
  0 < PAGE_SIZE -> 0 <= lstar < U64 ->
  lstar mod PAGE_SIZE <> 0 ->
  Z.of_nat k * PAGE_SIZE <= align PAGE_SIZE lstar ->
  (k < fuel)%nat ->
  blank_run core PAGE_SIZE read_image_size (cur st) (align PAGE_SIZE lstar) k = true ->
  let page := align PAGE_SIZE lstar - Z.of_nat k * PAGE_SIZE in
  let st' := mk_state (cur st)
               (reads st ++ probes PAGE_SIZE (cur st) (align PAGE_SIZE lstar) (S k))
               (logs st) in
  (align PAGE_SIZE lstar mod PAGE_SIZE = 0
   /\ align PAGE_SIZE lstar <= lstar < align PAGE_SIZE lstar + PAGE_SIZE)
  /\ (probe_page core PAGE_SIZE read_image_size (cur st) page = None ->
      find_kernel core PAGE_SIZE read_image_size fuel lstar st = Ret (None, st'))
  /\ (forall sz,
      probe_page core PAGE_SIZE read_image_size (cur st) page = Some (Some sz) ->
      find_kernel core PAGE_SIZE read_image_size fuel lstar st
      = Ret (Some (mk_span page sz), st'))
  /\ (forall fuel0 lstar0 st1 sp st2,
      find_kernel core PAGE_SIZE read_image_size fuel0 lstar0 st1 = Ret (Some sp, st2) ->
      addr sp < lstar0).
Proof.
  intros Hp Hl Hna Hk Hf Hb page st'.
  pose proof (Z.mod_pos_bound lstar PAGE_SIZE Hp) as Hm.
  assert (Hal : align PAGE_SIZE lstar mod PAGE_SIZE = 0).
  { unfold align. rewrite Zminus_mod, Z.mod_mod, Z.sub_diag by lia.
    apply Z.mod_0_l. lia. }
  split; [split; [exact Hal | unfold align; lia]|].
  assert (Hlt : align PAGE_SIZE lstar < lstar) by (unfold align; lia).
  assert (Hr : Z.of_nat k * PAGE_SIZE <= align PAGE_SIZE lstar < U64)
    by (unfold align in *; lia).
  destruct (find_kernel_loop_scan k fuel lstar (align PAGE_SIZE lstar) st
              Hp Hlt Hr Hf Hb) as [Hnone Hsome].
  split; [exact Hnone|]. split; [exact Hsome|].
  intros fuel0 lstar0 st1 sp st2. apply find_kernel_loop_below.
Qed.

(** A page-aligned register value: the loop condition [ptr < lstar] is false
    at once, no page is read and the result is absent. *)
Lemma find_kernel_aligned (fuel : nat) (lstar : Z) (st : state) :
  0 < PAGE_SIZE -> lstar mod PAGE_SIZE = 0 ->
  find_kernel core PAGE_SIZE read_image_size (S fuel) lstar st = Ret (None, st).
Proof.
  intros Hp Hm. unfold find_kernel, align. rewrite Hm, Z.sub_0_r.
  cbn [find_kernel_loop]. rewrite Z.ltb_irrefl. reflexivity.
Qed.

(** *** Bootstrap *)

Lemma resolve_symbols_spec cat : forall i fail t st,
  exists t',
    resolve_symbols core i cat fail t st
    = Ret ((fail || existsb (symbol_unresolved core) cat, t'),
           mk_state (cur st) (reads st)
             (logs st ++ map symbol_error (List.filter (symbol_unresolved core) cat)))
    /\ length t' = length t
    /\ (forall j, (j < i)%nat -> t' !! j = t !! j)
    /\ (forall j so a, cat !! j = Some so ->
          sym_symbol core (s_module so) (s_name so) = Some a ->
          (i + j < length t)%nat -> t' !! (i + j)%nat = Some a).
Proof.
  induction cat as [|so cat IH]; intros i fail t st.
  - exists t. cbn. rewrite orb_false_r, app_nil_r. destruct st.
    repeat split; try reflexivity. intros j so a Hj. discriminate Hj.
  - cbn [resolve_symbols existsb List.filter]. unfold symbol_unresolved at 1 3.
    destruct (sym_symbol core (s_module so) (s_name so)) as [a|] eqn:Hs.
    + destruct (IH (S i) fail (<[i:=a]> t) st) as (t' & -> & Hlen & Hlow & Hres).
      exists t'. rewrite length_insert in Hlen, Hres. cbn [orb].
      repeat split; try assumption.
      * intros j Hj. rewrite Hlow by lia. apply list_lookup_insert_ne. lia.
      * intros [|j] so' a' Hj Ha Hb.
        -- injection Hj as <-. rewrite Hs in Ha. injection Ha as <-.
           rewrite Nat.add_0_r in *. rewrite Hlow by lia.
           apply list_lookup_insert_eq. exact Hb.
        -- replace (i + S j)%nat with (S i + j)%nat by lia.
           apply (Hres j so'); [exact Hj | exact Ha | lia].
    + run.
      destruct (IH (S i) true t (mk_state (cur st) (reads st)
                  (logs st ++ [mk_log ERROR "unable to read %s!%s symbol offset"
                                 [ArgS (s_module so); ArgS (s_name so)]])))
        as (t' & -> & Hlen & Hlow & Hres).
      exists t'. cbn [cur reads logs map]. rewrite orb_true_r.
      unfold symbol_error at 2. rewrite <- app_assoc. cbn [orb app].
      repeat split; try assumption.
      * intros j Hj. apply Hlow. lia.
      * intros [|j] so' a' Hj Ha Hb.
        -- injection Hj as <-. congruence.
        -- replace (i + S j)%nat with (S i + j)%nat by lia.
           apply (Hres j so'); [exact Hj | exact Ha | lia].
Qed.

Lemma resolve_members_spec cat : forall i fail t st,
  exists t',
    resolve_members core i cat fail t st
    = Ret ((fail || existsb (member_unresolved core) cat, t'),
           mk_state (cur st) (reads st)
             (logs st ++ map member_error (List.filter (member_unresolved core) cat)))
    /\ length t' = length t
    /\ (forall j, (j < i)%nat -> t' !! j = t !! j)
    /\ (forall j mo a, cat !! j = Some mo ->
          sym_struc_offset core (m_module mo) (m_struc mo) (m_member mo) = Some a ->
          (i + j < length t)%nat -> t' !! (i + j)%nat = Some a).
Proof.
  induction cat as [|mo cat IH]; intros i fail t st.
  - exists t. cbn. rewrite orb_false_r, app_nil_r. destruct st.
    repeat split; try reflexivity. intros j so a Hj. discriminate Hj.
  - cbn [resolve_members existsb List.filter]. unfold member_unresolved at 1 3.
    destruct (sym_struc_offset core (m_module mo) (m_struc mo) (m_member mo))
      as [a|] eqn:Hs.
    + destruct (IH (S i) fail (<[i:=a]> t) st) as (t' & -> & Hlen & Hlow & Hres).
      exists t'. rewrite length_insert in Hlen, Hres. cbn [orb].
      repeat split; try assumption.
      * intros j Hj. rewrite Hlow by lia. apply list_lookup_insert_ne. lia.
      * intros [|j] mo' a' Hj Ha Hb.
        -- injection Hj as <-. rewrite Hs in Ha. injection Ha as <-.
           rewrite Nat.add_0_r in *. rewrite Hlow by lia.
           apply list_lookup_insert_eq. exact Hb.
        -- replace (i + S j)%nat with (S i + j)%nat by lia.
           apply (Hres j mo'); [exact Hj | exact Ha | lia].
    + run.
      destruct (IH (S i) true t (mk_state (cur st) (reads st)
                  (logs st ++ [mk_log ERROR "unable to read %s!%s.%s member offset"
                                 [ArgS (m_module mo); ArgS (m_struc mo);
                                  ArgS (m_member mo)]])))
        as (t' & -> & Hlen & Hlow & Hres).
      exists t'. cbn [cur reads logs map]. rewrite orb_true_r.
      unfold member_error at 2. rewrite <- app_assoc. cbn [orb app].
      repeat split; try assumption.
      * intros j Hj. apply Hlow. lia.
      * intros [|j] mo' a' Hj Ha Hb.
        -- injection Hj as <-. congruence.
        -- replace (i + S j)%nat with (S i + j)%nat by lia.
           apply (Hres j mo'); [exact Hj | exact Ha | lia].
Qed.

(** The two [static_assert]s, and the order of the catalogs: the entry at
    index [j] carries the key whose value is [j], so that writing at the
    loop index and reading at the key meet. *)
Lemma g_symbol_offsets_count : length g_symbol_offsets = SYMBOL_OFFSET_COUNT.
Proof. reflexivity. Qed.

Lemma g_member_offsets_count : length g_member_offsets = MEMBER_OFFSET_COUNT.
Proof. reflexivity. Qed.

Lemma g_symbol_offsets_keys j so :
  g_symbol_offsets !! j = Some so -> symbol_idx (s_id so) = j.
Proof.
  intros H. do 3 (destruct j as [|j]; [injection H as <-; reflexivity|]).
  discriminate H.
Qed.

Lemma g_member_offsets_keys j mo :
  g_member_offsets !! j = Some mo -> member_idx (m_id mo) = j.
Proof.
  intros H. do 20 (destruct j as [|j]; [injection H as <-; reflexivity|]).
  discriminate H.
Qed.

Lemma existsb_filter_nil {A} (f : A -> bool) (l : list A) :
  existsb f l = false <-> List.filter f l = [].
Proof.
  induction l as [|x l IH]; cbn; [tauto|].
  destruct (f x); cbn; [split; discriminate | exact IH].
Qed.

Lemma tbl_at_lookup (t : list Z) (i : nat) (a : Z) : t !! i = Some a -> tbl_at t i = a.
Proof. unfold tbl_at. intros ->. reflexivity. Qed.

(** What [setup] does once the register, the locator, the image read and
    the ingestion have succeeded. *)
Lemma setup_resolution fuel nt st lstar kernel st1 image :
  regs_read core MSR_LSTAR = Some lstar ->
  find_kernel core PAGE_SIZE read_image_size fuel lstar st = Ret (Some kernel, st1) ->
  read_bytes (memory core (cur st1)) (addr kernel) (Z.to_nat (size kernel)) = Some image ->
  sym_insert core "nt" kernel image = true ->
  length (symbols_ nt) = SYMBOL_OFFSET_COUNT ->
  length (members_ nt) = MEMBER_OFFSET_COUNT ->
  exists nt',
    let missing := existsb (symbol_unresolved core) g_symbol_offsets
                   || existsb (member_unresolved core) g_member_offsets in
    let ki := symbol nt' KiSystemCall64 in
    setup core PAGE_SIZE read_image_size fuel nt st
    = Ret ((negb missing && (lstar =? ki), nt'),
           mk_state (cur st1)
             (reads st1 ++ [mk_read (cur st1) (addr kernel) (size kernel)])
             (logs st1 ++ [kernel_info kernel]
                ++ map symbol_error (missing_symbols core)
                ++ map member_error (missing_members core)
                ++ (if negb missing && negb (lstar =? ki)
                    then [mismatch_error lstar ki] else [])))
    /\ (missing = false -> fully_populated core nt').
Proof.
  intros Hreg Hk Hrd Hins Hls Hlm. unfold setup. rewrite Hreg.
  unfold bind at 1. rewrite Hk.
  unfold bind at 1. unfold LOG at 1. unfold bind at 1. unfold core_read at 1.
  cbv beta iota. cbn [cur reads logs]. rewrite Hrd, Hins. cbn [negb].
  destruct (resolve_symbols_spec g_symbol_offsets 0 false (symbols_ nt)
              (mk_state (cur st1)
                 (reads st1 ++ [mk_read (cur st1) (addr kernel) (size kernel)])
                 (logs st1 ++ [kernel_info kernel])))
    as (ts & Es & Hlens & _ & Hress).
  unfold kernel_info in Es. unfold bind at 1. rewrite Es.
  cbn [fst snd cur reads logs orb].
  destruct (resolve_members_spec g_member_offsets 0
              (existsb (symbol_unresolved core) g_symbol_offsets) (members_ nt)
              (mk_state (cur st1)
                 (reads st1 ++ [mk_read (cur st1) (addr kernel) (size kernel)])
                 ((logs st1 ++ [kernel_info kernel])
                    ++ map symbol_error
                         (List.filter (symbol_unresolved core) g_symbol_offsets))))
    as (tm & Em & Hlenm & _ & Hresm).
  unfold kernel_info in Em. unfold bind at 1. rewrite Em.
  cbn [fst snd cur reads logs].
  exists (mk_nt tm ts). cbn zeta. split.
  - unfold missing_symbols, missing_members, kernel_info, mismatch_error.
    destruct (existsb (symbol_unresolved core) g_symbol_offsets
              || existsb (member_unresolved core) g_member_offsets) eqn:Hmiss;
      cbn [negb andb].
    + unfold ret. rewrite app_nil_r, <- !app_assoc. reflexivity.
    + destruct (lstar =? symbol (mk_nt tm ts) KiSystemCall64); cbn [negb];
        unfold FAIL, LOG, bind, ret; cbn [cur reads logs];
        rewrite <- ?app_assoc; cbn [app]; rewrite ?app_nil_r; reflexivity.
  - intros Hmiss. apply orb_false_elim in Hmiss as [Hs Hm].
    unfold fully_populated. cbn [symbols_ members_].
    split; [congruence|]. split; [congruence|]. split.
    + apply Forall_lookup_2. intros j so Hj.
      pose proof (lookup_lt_Some _ _ _ Hj) as Hlt.
      rewrite g_symbol_offsets_count, <- Hls in Hlt.
      assert (Hu : symbol_unresolved core so = false).
      { rewrite existsb_filter_nil in Hs.
        destruct (symbol_unresolved core so) eqn:E; [|reflexivity].
        assert (Hin : In so (List.filter (symbol_unresolved core) g_symbol_offsets)).
        { apply filter_In. split; [|exact E].
          apply list_elem_of_In, list_elem_of_lookup. eauto. }
        rewrite Hs in Hin. destruct Hin. }
      unfold symbol_unresolved in Hu.
      destruct (sym_symbol core (s_module so) (s_name so)) as [a|] eqn:Ha;
        [|discriminate].
      f_equal. symmetry. unfold symbol. cbn [symbols_].
      rewrite (g_symbol_offsets_keys j so Hj).
      apply tbl_at_lookup, (Hress j so a Hj Ha). exact Hlt.
    + apply Forall_lookup_2. intros j mo Hj.
      pose proof (lookup_lt_Some _ _ _ Hj) as Hlt.
      rewrite g_member_offsets_count, <- Hlm in Hlt.
      assert (Hu : member_unresolved core mo = false).
      { rewrite existsb_filter_nil in Hm.
        destruct (member_unresolved core mo) eqn:E; [|reflexivity].
        assert (Hin : In mo (List.filter (member_unresolved core) g_member_offsets)).
        { apply filter_In. split; [|exact E].
          apply list_elem_of_In, list_elem_of_lookup. eauto. }
        rewrite Hm in Hin. destruct Hin. }
      unfold member_unresolved in Hu.
      destruct (sym_struc_offset core (m_module mo) (m_struc mo) (m_member mo))
        as [a|] eqn:Ha; [|discriminate].
      f_equal. symmetry. unfold member. cbn [members_].
      rewrite (g_member_offsets_keys j mo Hj).
      apply tbl_at_lookup, (Hresm j mo a Hj Ha). exact Hlt.
Qed.

Lemma make_unique_sizes gm gs :
  length (symbols_ (make_unique gm gs)) = SYMBOL_OFFSET_COUNT
  /\ length (members_ (make_unique gm gs)) = MEMBER_OFFSET_COUNT.
Proof. split; reflexivity. Qed.

Lemma missing_none :
  missing_symbols core = [] -> missing_members core = [] ->
  existsb (symbol_unresolved core) g_symbol_offsets
  || existsb (member_unresolved core) g_member_offsets = false.
Proof.
  unfold missing_symbols, missing_members. intros Hs Hm.
  apply existsb_filter_nil in Hs, Hm. rewrite Hs, Hm. reflexivity.
Qed.

Lemma missing_some :
  missing_symbols core <> [] \/ missing_members core <> [] ->
  existsb (symbol_unresolved core) g_symbol_offsets
  || existsb (member_unresolved core) g_member_offsets = true.
Proof.
  unfold missing_symbols, missing_members. intros H.
  destruct (existsb (symbol_unresolved core) g_symbol_offsets) eqn:Hs; [reflexivity|].
  destruct (existsb (member_unresolved core) g_member_offsets) eqn:Hm; [reflexivity|].
  apply existsb_filter_nil in Hs, Hm. tauto.
Qed.

(** C1.  A handler that [make_nt] returns carries a fully populated offset
    table: every entry of both catalogs resolved, and the arrays hold the
    resolved values.  [make_nt] never runs into undefined behaviour.  Once
    resolution has started (register, kernel, image and ingestion were
    fine) and at least one entry is missing, both catalogs are still gone
    through to the end: the diagnostics added are the kernel line and one
    error for each missing entry, in catalog order, so every missing entry
    is reported, and no handler is returned. *)
Theorem make_nt_all_or_nothing (fuel : nat) (gm gs : nat -> Z) (st : state) :
  (forall nt st',
      make_nt core PAGE_SIZE read_image_size fuel gm gs st = Ret (Some nt, st') ->
      fully_populated core nt)
  /\ make_nt core PAGE_SIZE read_image_size fuel gm gs st <> Undefined
  /\ (forall lstar kernel st1 image,
      regs_read core MSR_LSTAR = Some lstar ->
      find_kernel core PAGE_SIZE read_image_size fuel lstar st = Ret (Some kernel, st1) ->
      read_bytes (memory core (cur st1)) (addr kernel) (Z.to_nat (size kernel))
      = Some image ->
      sym_insert core "nt" kernel image = true ->
      missing_symbols core <> [] \/ missing_members core <> [] ->
      exists st',
        make_nt core PAGE_SIZE read_image_size fuel gm gs st = Ret (None, st')
        /\ logs st' = logs st1 ++ [kernel_info kernel]
                        ++ map symbol_error (missing_symbols core)
                        ++ map member_error (missing_members core)
        /\ (forall so, In so g_symbol_offsets ->
               sym_symbol core (s_module so) (s_name so) = None ->
               In (symbol_error so) (logs st'))
        /\ (forall mo, In mo g_member_offsets ->
               sym_struc_offset core (m_module mo) (m_struc mo) (m_member mo) = None ->
               In (member_error mo) (logs st'))).
Proof.
  assert (Hearly : forall (v : M (bool * OsNt)) r st0,
             v st = Ret ((false, r), st0) ->
             (forall nt st',
                 (r <- v ;; if negb (fst r) then ret None else ret (Some (snd r))) st
                 = Ret (Some nt, st') -> fully_populated core nt)
             /\ (r <- v ;; if negb (fst r) then ret None else ret (Some (snd r))) st
                <> Undefined).
  { intros v r st0 Hv. unfold bind. rewrite Hv. cbn. split; [|discriminate].
    intros nt st'. discriminate. }
  destruct (make_unique_sizes gm gs) as [Hls Hlm].
  unfold make_nt. cbv zeta.
  assert (Hres : forall lstar kernel st1 image,
      regs_read core MSR_LSTAR = Some lstar ->
      find_kernel core PAGE_SIZE read_image_size fuel lstar st = Ret (Some kernel, st1) ->
      read_bytes (memory core (cur st1)) (addr kernel) (Z.to_nat (size kernel))
      = Some image ->
      sym_insert core "nt" kernel image = true ->
      exists nt' ok st',
        setup core PAGE_SIZE read_image_size fuel (make_unique gm gs) st
        = Ret ((ok, nt'), st')
        /\ (ok = true -> fully_populated core nt')).
  { intros lstar kernel st1 image Hreg Hk Hrd Hins.
    destruct (setup_resolution fuel _ st lstar kernel st1 image Hreg Hk Hrd Hins Hls Hlm)
      as (nt' & E & Hfull).
    cbv zeta in E, Hfull. eexists nt', _, _. split; [exact E|].
    intros Hok. apply andb_prop in Hok as [Hok _]. apply Hfull.
    apply negb_true_iff in Hok. exact Hok. }
  split; [|split].
  - intros nt st'.
    destruct (regs_read core MSR_LSTAR) as [lstar|] eqn:Hreg.
    2:{ unfold setup. rewrite Hreg. eapply Hearly. reflexivity. }
    destruct (find_kernel core PAGE_SIZE read_image_size fuel lstar st)
      as [[[kernel|] st1]| |] eqn:Hk.
    2:{ unfold setup. rewrite Hreg. eapply Hearly. unfold bind at 1. rewrite Hk.
        reflexivity. }
    2,3: unfold setup; rewrite Hreg; unfold bind; rewrite Hk; discriminate.
    destruct (read_bytes (memory core (cur st1)) (addr kernel) (Z.to_nat (size kernel)))
      as [image|] eqn:Hrd.
    2:{ unfold setup. rewrite Hreg. eapply Hearly. unfold bind at 1. rewrite Hk.
        unfold bind at 1. unfold LOG at 1. unfold bind at 1. unfold core_read at 1.
        cbv beta iota. cbn [cur reads logs]. rewrite Hrd. reflexivity. }
    destruct (sym_insert core "nt" kernel image) eqn:Hins.
    2:{ unfold setup. rewrite Hreg. eapply Hearly. unfold bind at 1. rewrite Hk.
        unfold bind at 1. unfold LOG at 1. unfold bind at 1. unfold core_read at 1.
        cbv beta iota. cbn [cur reads logs]. rewrite Hrd, Hins. reflexivity. }
    destruct (Hres lstar kernel st1 image eq_refl Hk Hrd Hins) as (nt' & ok & st2 & E & Hf).
    unfold bind. rewrite E. cbn [fst snd]. destruct ok; cbn [negb]; unfold ret.
    + intros [= <- <-]. apply Hf. reflexivity.
    + discriminate.
  - destruct (regs_read core MSR_LSTAR) as [lstar|] eqn:Hreg.
    2:{ unfold setup. rewrite Hreg. eapply Hearly. reflexivity. }
    destruct (find_kernel core PAGE_SIZE read_image_size fuel lstar st)
      as [[[kernel|] st1]| |] eqn:Hk.
    2:{ unfold setup. rewrite Hreg. eapply Hearly. unfold bind at 1. rewrite Hk.
        reflexivity. }
    3:{ unfold setup; rewrite Hreg; unfold bind; rewrite Hk; discriminate. }
    2:{ exfalso. revert Hk. unfold find_kernel. generalize (align PAGE_SIZE lstar).
        clear. revert st. induction fuel as [|n IH]; intros st ptr; cbn; [discriminate|].
        destruct (ptr <? lstar); [|discriminate]. unfold bind, core_read.
        destruct (read_bytes _ _ _) as [buf|]; [|discriminate].
        destruct (read_image_size buf PAGE_SIZE); [discriminate|]. apply IH. }
    destruct (read_bytes (memory core (cur st1)) (addr kernel) (Z.to_nat (size kernel)))
      as [image|] eqn:Hrd.
    2:{ unfold setup. rewrite Hreg. eapply Hearly. unfold bind at 1. rewrite Hk.
        unfold bind at 1. unfold LOG at 1. unfold bind at 1. unfold core_read at 1.
        cbv beta iota. cbn [cur reads logs]. rewrite Hrd. reflexivity. }
    destruct (sym_insert core "nt" kernel image) eqn:Hins.
    2:{ unfold setup. rewrite Hreg. eapply Hearly. unfold bind at 1. rewrite Hk.
        unfold bind at 1. unfold LOG at 1. unfold bind at 1. unfold core_read at 1.
        cbv beta iota. cbn [cur reads logs]. rewrite Hrd, Hins. reflexivity. }
    destruct (Hres lstar kernel st1 image eq_refl Hk Hrd Hins) as (nt' & ok & st2 & E & Hf).
    unfold bind. rewrite E. cbn [fst snd]. destruct ok; discriminate.
  - intros lstar kernel st1 image Hreg Hk Hrd Hins Hmiss.
    destruct (setup_resolution fuel _ st lstar kernel st1 image Hreg Hk Hrd Hins Hls Hlm)
      as (nt' & E & _).
    cbv zeta in E. rewrite (missing_some Hmiss) in E. cbn [negb andb] in E.
    unfold bind. rewrite E. cbn [fst snd negb]. unfold ret.
    eexists. split; [reflexivity|]. cbn [logs]. rewrite app_nil_r.
    split; [reflexivity|]. split.
    + intros so Hin Hnone. rewrite !in_app_iff. right. right. left.
      apply in_map, filter_In. split; [exact Hin|].
      unfold symbol_unresolved. rewrite Hnone. reflexivity.
    + intros mo Hin Hnone. rewrite !in_app_iff. right. right. right.
      apply in_map, filter_In. split; [exact Hin|].
      unfold member_unresolved. rewrite Hnone. reflexivity.
Qed.

(** C2.  When the register read, the locator, the image read, the ingestion
    and every catalog resolution succeed, [setup] returns [true] exactly
    when the address resolved for [KiSystemCall64] is the LSTAR value; when
    the two differ it returns [false] and the one diagnostic it adds after
    the kernel line is the version-mismatch one, not a lookup failure. *)
Theorem setup_version_check (fuel : nat) (gm gs : nat -> Z) (st : state)
    (lstar : Z) (kernel : span_t) (st1 : state) (image : list byte) :
  regs_read core MSR_LSTAR = Some lstar ->
  find_kernel core PAGE_SIZE read_image_size fuel lstar st = Ret (Some kernel, st1) ->
  read_bytes (memory core (cur st1)) (addr kernel) (Z.to_nat (size kernel)) = Some image ->
  sym_insert core "nt" kernel image = true ->
  missing_symbols core = [] -> missing_members core = [] ->
  exists ki ok nt' st',
    sym_symbol core "nt" "KiSystemCall64" = Some ki
    /\ setup core PAGE_SIZE read_image_size fuel (make_unique gm gs) st
       = Ret ((ok, nt'), st')
    /\ (ok = true <-> ki = lstar)
    /\ logs st' = logs st1 ++ [kernel_info kernel]
                    ++ (if ok then [] else [mismatch_error lstar ki]).
Proof.
  intros Hreg Hk Hrd Hins Hs Hm.
  destruct (make_unique_sizes gm gs) as [Hls Hlm].
  destruct (setup_resolution fuel _ st lstar kernel st1 image Hreg Hk Hrd Hins Hls Hlm)
    as (nt' & E & Hfull).
  cbv zeta in E, Hfull. rewrite (missing_none Hs Hm) in E, Hfull.
  cbn [negb andb] in E. rewrite Hs, Hm in E. cbn [map app] in E.
  destruct (Hfull eq_refl) as (_ & _ & Hsym & _).
  apply Forall_cons_1 in Hsym as [Hki _]. cbn [s_module s_name s_id] in Hki.
  eexists (symbol nt' KiSystemCall64), _, nt', _.
  split; [exact Hki|]. split; [exact E|]. split.
  - rewrite Z.eqb_eq. split; congruence.
  - cbn [logs]. destruct (lstar =? symbol nt' KiSystemCall64); reflexivity.
Qed.

(** *** Process walker *)

Section walker_properties.

Variable nt : OsNt.

Lemma read_ptr_run a st :
  read_ptr core a st = Ret (peek core (cur st) a, after st [ptr_read st a] []).
Proof. unfold read_ptr, bind, core_read, ret, peek, after. rewrite app_nil_r. reflexivity. Qed.

Lemma list_procs_loop_skip {A} (fuel : nat) (on_process : proc_t -> A -> A * walk_e)
    (head l : Z) (acc : A) (st : state) :
  l <> head ->
  let eproc := sub64 l (member nt EPROCESS_ActiveProcessLinks) in
  let field := add64 (add64 eproc (member nt EPROCESS_Pcb))
                     (member nt KPROCESS_DirectoryTableBase) in
  peek core (cur st) field = None ->
  list_procs_loop core nt (S fuel) on_process head (Some l) acc st
  = list_procs_loop core nt fuel on_process head (peek core (cur st) l) acc
      (after st [ptr_read st field; ptr_read st l]
         [mk_log ERROR "unable to read KPROCESS.DirectoryTableBase from 0x%llx"
                 [ArgX eproc]]).
Proof.
  intros Hne eproc field Hdtb. cbn [list_procs_loop opt_ne].
  apply Z.eqb_neq in Hne as ->. cbn [negb].
  fold eproc. fold field. unfold bind at 1. rewrite read_ptr_run, Hdtb.
  unfold bind at 1. unfold LOG. unfold bind at 1. rewrite read_ptr_run.
  cbn [cur reads logs after]. unfold after, ptr_read. cbn [cur reads logs].
  rewrite <- !app_assoc, !app_nil_r. reflexivity.
Qed.

Lemma list_procs_returns_true {A} (fuel : nat) (on_process : proc_t -> A -> A * walk_e)
    (acc : A) (st : state) b acc' st' :
  list_procs core nt fuel on_process acc st = Ret ((b, acc'), st') -> b = true.
Proof.
  unfold list_procs. unfold bind at 1. rewrite read_ptr_run. unfold bind.
  destruct (list_procs_loop _ _ _ _ _ _ _ _) as [[a s]| |]; [|discriminate..].
  unfold ret. congruence.
Qed.

(** *** Current process *)

(** The base register [read_gs_base] settles on, as a function of the two
    registers. *)
Lemma read_gs_base_run st :
  read_gs_base core st
  = Ret (match regs_read core MSR_GS_BASE with
         | None => None
         | Some gs =>
           if Z.land gs 0xFFF0000000000000 =? 0
           then regs_read core MSR_KERNEL_GS_BASE
           else Some gs
         end, st).
Proof.
  unfold read_gs_base. destruct (regs_read core MSR_GS_BASE) as [gs|]; [|reflexivity].
  destruct (Z.land gs 0xFFF0000000000000 =? 0); cbn [negb]; [|reflexivity].
  destruct (regs_read core MSR_KERNEL_GS_BASE); reflexivity.
Qed.

(** C6.  [read_gs_base] returns GS_BASE when that register has one of its
    top twelve bits set, and otherwise KERNEL_GS_BASE; a failed read of the
    register it consults is an absent result.  [get_current_proc] always
    returns, and returns a handle exactly when the base register and the
    three pointer reads (current thread, owning process, page-table root)
    all succeed: the handle is then built from the last two, and any failed
    step gives an absent result. *)
Theorem get_current_proc_all_or_nothing (st : state) :
  (forall gs, regs_read core MSR_GS_BASE = Some gs ->
              Z.land gs 0xFFF0000000000000 <> 0 ->
              read_gs_base core st = Ret (Some gs, st))
  /\ (forall gs, regs_read core MSR_GS_BASE = Some gs ->
                 Z.land gs 0xFFF0000000000000 = 0 ->
                 read_gs_base core st = Ret (regs_read core MSR_KERNEL_GS_BASE, st))
  /\ (regs_read core MSR_GS_BASE = None -> read_gs_base core st = Ret (None, st))
  /\ exists r st',
      get_current_proc core nt st = Ret (r, st')
      /\ cur st' = cur st
      /\ (forall p, r = Some p <->
            exists gs current_thread kproc dtb,
              read_gs_base core st = Ret (Some gs, st)
              /\ peek core (cur st) (add64 (add64 gs (member nt KPCR_Prcb))
                                           (member nt KPRCB_CurrentThread))
                 = Some current_thread
              /\ peek core (cur st) (add64 current_thread (member nt KTHREAD_Process))
                 = Some kproc
              /\ peek core (cur st) (add64 kproc (member nt KPROCESS_DirectoryTableBase))
                 = Some dtb
              /\ p = mk_proc (sub64 kproc (member nt EPROCESS_Pcb)) dtb).
Proof.
  split; [|split; [|split]].
  - intros gs Hgs Hk. rewrite read_gs_base_run, Hgs.
    apply Z.eqb_neq in Hk as ->. reflexivity.
  - intros gs Hgs Hk. rewrite read_gs_base_run, Hgs.
    apply Z.eqb_eq in Hk as ->. reflexivity.
  - intros Hgs. rewrite read_gs_base_run, Hgs. reflexivity.
  - unfold get_current_proc. unfold bind at 1. rewrite read_gs_base_run.
    destruct (match regs_read core MSR_GS_BASE with
              | None => None
              | Some gs => _ end) as [gs|].
    2:{ eexists _, _. split; [reflexivity|]. split; [reflexivity|].
        intros p. split; [discriminate|]. intros (? & ? & ? & ? & [=] & _). }
    unfold bind at 1. rewrite read_ptr_run.
    destruct (peek core (cur st) (add64 (add64 gs _) _)) as [ct|] eqn:Hct.
    2:{ eexists _, _. split; [reflexivity|]. split; [reflexivity|].
        intros p. split; [discriminate|].
        intros (? & ? & ? & ? & [= <-] & Hc & _). congruence. }
    unfold bind at 1. rewrite read_ptr_run. cbn [after cur].
    destruct (peek core (cur st) (add64 ct _)) as [kp|] eqn:Hkp.
    2:{ eexists _, _. split; [reflexivity|]. split; [reflexivity|].
        intros p. split; [discriminate|].
        intros (? & ? & ? & ? & [= <-] & Hc & Hk & _). congruence. }
    unfold bind at 1. rewrite read_ptr_run. cbn [after cur].
    destruct (peek core (cur st) (add64 kp _)) as [d|] eqn:Hd.
    2:{ eexists _, _. split; [reflexivity|]. split; [reflexivity|].
        intros p. split; [discriminate|].
        intros (? & ? & ? & ? & [= <-] & Hc & Hk & Hdd & _). congruence. }
    eexists _, _. split; [reflexivity|]. split; [reflexivity|].
    intros p. split.
    + intros [= <-]. exists gs, ct, kp, d. repeat split; assumption.
    + intros (? & ? & ? & ? & [= <-] & Hc & Hk & Hdd & ->). congruence.
Qed.

(** *** Names *)

Lemma read_bytes_length m n : forall a bs,
  read_bytes m a n = Some bs -> length bs = n.
Proof.
  induction n as [|n IH]; intros a bs; cbn.
  - intros [= <-]. reflexivity.
  - destruct (m a); [|discriminate].
    destruct (read_bytes m (add64 a 1) n) as [bs'|] eqn:E; [|discriminate].
    intros [= <-]. cbn. f_equal. eapply IH, E.
Qed.

Lemma read_bytes_take m n k : forall a bs,
  read_bytes m a (n + k) = Some bs -> read_bytes m a n = Some (take n bs).
Proof.
  induction n as [|n IH]; intros a bs; cbn.
  - intros _. rewrite take_0. reflexivity.
  - destruct (m a); [|discriminate].
    destruct (read_bytes m (add64 a 1) (n + k)) as [bs'|] eqn:E; [|discriminate].
    intros [= <-]. rewrite (IH _ _ E). reflexivity.
Qed.




(** [read_unicode_string] always returns, with the text of the descriptor;
    it leaves the address-space selection alone and reads under it. *)
Lemma read_unicode_string_run a st :
  exists rs ls,
    read_unicode_string core utf8_convert a st
    = Ret (unicode_text core utf8_convert (cur st) a,
           after st (mk_read (cur st) a 16 :: rs) ls)
    /\ Forall (fun e => r_ctx e = cur st) rs.
Proof.
  unfold read_unicode_string, unicode_text. unfold bind at 1. unfold core_read at 1.
  cbn [cur reads logs]. change (Z.to_nat 16) with 16%nat.
  destruct (read_bytes (memory core (cur st)) a 16) as [us|].
  2:{ eexists [], _. split; [reflexivity | constructor]. }
  destruct (read_le16 (drop 2 us) <? read_le16 us).
  { eexists [], _. split; [reflexivity | constructor]. }
  unfold bind, core_read. cbn [cur reads logs].
  destruct (read_bytes _ _ _) as [buf|].
  - exists [mk_read (cur st) (read_le64 (drop 8 us)) (read_le16 us)], [].
    split; [|repeat constructor]. unfold ret, after. cbn [cur reads logs].
    rewrite <- app_assoc, app_nil_r. reflexivity.
  - exists [mk_read (cur st) (read_le64 (drop 8 us)) (read_le16 us)].
    eexists [_]. split; [|repeat constructor].
    unfold FAIL, LOG, bind, ret, after. cbn [cur reads logs].
    rewrite <- app_assoc. reflexivity.
Qed.

(** C9.  A descriptor whose decoded [length] exceeds its decoded
    [max_length] is refused: the result is absent, the diagnostic says
    corrupted, and the one read of the call is the read of the 16-byte
    descriptor; the buffer is not read. *)
Theorem read_unicode_string_corrupt (a : Z) (st : state) (us : list byte) :
  read_bytes (memory core (cur st)) a 16 = Some us ->
  read_le16 (drop 2 us) < read_le16 us ->
  read_unicode_string core utf8_convert a st
  = Ret (None, after st [mk_read (cur st) a 16]
                 [mk_log ERROR "corrupted UNICODE_STRING" []]).
Proof.
  intros Hrd Hlen. unfold read_unicode_string. unfold bind at 1. unfold core_read at 1.
  cbn [cur reads logs]. change (Z.to_nat 16) with 16%nat. rewrite Hrd.
  apply Z.ltb_lt in Hlen as ->. reflexivity.
Qed.

(** *** Module walker *)

Lemma list_mods_loop_cur {A} (fuel : nat) (on_mod : mod_t -> A -> A * walk_e) (head : Z) :
  forall link acc st r st',
    list_mods_loop core nt fuel on_mod head link acc st = Ret (r, st') ->
    cur st' = cur st.
Proof.
  induction fuel as [|fuel IH]; intros link acc st r st'; cbn [list_mods_loop];
    [discriminate|].
  destruct link as [l|]; [|unfold ret; congruence].
  destruct (negb (l =? head)); [|unfold ret; congruence].
  destruct (on_mod _ acc) as [acc' err]. destruct err; [unfold ret; congruence|].
  unfold bind. rewrite read_ptr_run. intros H. apply IH in H. exact H.
Qed.

Lemma list_mods_loop_defined {A} (fuel : nat) (on_mod : mod_t -> A -> A * walk_e)
    (head : Z) :
  forall link acc st, list_mods_loop core nt fuel on_mod head link acc st <> Undefined.
Proof.
  induction fuel as [|fuel IH]; intros link acc st; cbn [list_mods_loop];
    [discriminate|].
  destruct link as [l|]; [|discriminate].
  destruct (negb (l =? head)); [|discriminate].
  destruct (on_mod _ acc) as [acc' err]. destruct err; [discriminate|].
  unfold bind. rewrite read_ptr_run. apply IH.
Qed.

(** C8.  Each of [list_mods], [get_mod_name] and [get_mod_span] leaves the
    backend's address-space selection as it found it, on whatever path it
    returns; none of them runs into undefined behaviour; [get_mod_name] and
    [get_mod_span] always return, and every read they issue is made under
    the selection of the target process. *)
Theorem address_space_restored (proc : proc_t) (st : state) :
  (forall A fuel (on_mod : mod_t -> A -> A * walk_e) acc r st',
      list_mods core nt fuel proc on_mod acc st = Ret (r, st') -> cur st' = cur st)
  /\ (forall A fuel (on_mod : mod_t -> A -> A * walk_e) acc,
        list_mods core nt fuel proc on_mod acc st <> Undefined)
  /\ (forall mod_, exists r rs ls,
        get_mod_name core utf8_convert nt proc mod_ st = Ret (r, after st rs ls)
        /\ Forall (fun e => r_ctx e = Some proc) rs)
  /\ (forall mod_, exists r rs ls,
        get_mod_span core nt proc mod_ st = Ret (r, after st rs ls)
        /\ Forall (fun e => r_ctx e = Some proc) rs).
Proof.
  split; [|split; [|split]].
  - intros A fuel on_mod acc r st'. unfold list_mods.
    unfold bind at 1. rewrite read_ptr_run.
    destruct (peek core (cur st) _) as [peb|]; [|intros [= _ <-]; reflexivity].
    destruct (peb =? 0); [intros [= _ <-]; reflexivity|].
    unfold bind at 1. unfold switch_process at 1. unfold scoped.
    unfold bind at 1. unfold bind at 1. rewrite read_ptr_run.
    cbn [after cur reads logs saved].
    destruct (peek core (Some proc) _) as [ldr|].
    2:{ unfold FAIL, LOG, release, bind, ret. cbn [saved]. intros [= _ <-]. reflexivity. }
    unfold bind at 1. rewrite read_ptr_run. unfold bind at 1.
    destruct (list_mods_loop _ _ _ _ _ _ _ _) as [[acc' st2]| |]; [|discriminate..].
    unfold release, bind, ret. cbn [saved]. intros [= _ <-]. reflexivity.
  - intros A fuel on_mod acc. unfold list_mods.
    unfold bind at 1. rewrite read_ptr_run.
    destruct (peek core (cur st) _) as [peb|]; [|discriminate].
    destruct (peb =? 0); [discriminate|].
    unfold bind at 1. unfold switch_process at 1. unfold scoped.
    unfold bind at 1. unfold bind at 1. rewrite read_ptr_run.
    cbn [after cur reads logs saved].
    destruct (peek core (Some proc) _) as [ldr|]; [|discriminate].
    unfold bind at 1. rewrite read_ptr_run. unfold bind at 1.
    destruct (list_mods_loop _ _ _ _ _ _ _ _) as [[acc' st2]| |] eqn:E;
      [discriminate| |discriminate].
    exfalso. eapply list_mods_loop_defined, E.
  - intros mod_. unfold get_mod_name, scoped. unfold bind at 1.
    unfold switch_process at 1. unfold bind at 1.
    match goal with
    | |- context [read_unicode_string core utf8_convert ?a ?s] =>
      destruct (read_unicode_string_run a s) as (rs & ls & E & Hrs)
    end.
    rewrite E. unfold release, bind, ret, after. cbn [saved cur reads logs].
    eexists _, _, ls. split; [reflexivity|].
    constructor; [reflexivity | exact Hrs].
  - intros mod_. unfold get_mod_span, scoped. unfold bind at 1.
    unfold switch_process at 1. unfold bind at 1. unfold bind at 1.
    rewrite read_ptr_run. cbn [after cur reads logs].
    destruct (peek core (Some proc) _) as [base|].
    2:{ unfold release, bind, ret, after, ptr_read. cbn [saved cur reads logs].
        eexists _, [_], []. split; [reflexivity | repeat constructor]. }
    unfold bind at 1. rewrite read_ptr_run. cbn [after cur reads logs].
    destruct (peek core (Some proc) _) as [sz|];
      unfold release, bind, ret, after, ptr_read; cbn [saved cur reads logs];
      rewrite <- !app_assoc; cbn [app];
      eexists _, [_; _], []; (split; [reflexivity | repeat constructor]).
Qed.

(** *** Width of the module fields *)

Lemma byte_val_range b : 0 <= byte_val b < 256.
Proof. unfold byte_val. pose proof (Byte.to_N_bounded b). lia. Qed.

Lemma byte_val_zero b : byte_val b = 0 -> b = Byte.x00.
Proof.
  unfold byte_val. intros H. pose proof (Byte.of_to_N b) as E.
  replace (Byte.to_N b) with 0%N in E by lia. cbn in E. congruence.
Qed.

Lemma le_decode_nonneg bs : 0 <= le_decode bs.
Proof.
  induction bs as [|b bs IH]; cbn [le_decode]; [lia|].
  pose proof (byte_val_range b). lia.
Qed.

Lemma le_decode_app bs1 bs2 :
  le_decode (bs1 ++ bs2) = le_decode bs1 + 256 ^ Z.of_nat (length bs1) * le_decode bs2.
Proof.
  induction bs1 as [|b bs1 IH]; cbn [le_decode app length].
  - change (256 ^ Z.of_nat 0) with 1. lia.
  - rewrite IH, Nat2Z.inj_succ, Z.pow_succ_r by lia. lia.
Qed.

Lemma le_decode_zero bs : le_decode bs = 0 <-> bs = replicate (length bs) Byte.x00.
Proof.
  induction bs as [|b bs IH]; cbn [le_decode length replicate]; [tauto|].
  pose proof (byte_val_range b). pose proof (le_decode_nonneg bs). split.
  - intros H1. assert (byte_val b = 0) by lia. assert (le_decode bs = 0) by lia.
    f_equal; [apply byte_val_zero; assumption | apply IH; assumption].
  - intros [= -> Hbs]. apply IH in Hbs. rewrite Hbs. reflexivity.
Qed.

(** C10.  [get_mod_span] reads eight bytes at the [DllBase] offset and eight
    bytes at the [SizeOfImage] offset, both in the address space of the
    process, and returns their little-endian values.  The size is therefore
    the 32-bit field at that offset plus [2^32] times the value of the four
    bytes that follow it, and equals the 32-bit field exactly when those
    four bytes are zero. *)
Theorem get_mod_span_pointer_width (proc : proc_t) (mod_ : mod_t) (st : state)
    (bs_base bs_size : list byte) :
  let m := memory core (Some proc) in
  let a_base := add64 mod_ (member nt LDR_DATA_TABLE_ENTRY_DllBase) in
  let a_size := add64 mod_ (member nt LDR_DATA_TABLE_ENTRY_SizeOfImage) in
  read_bytes m a_base 8 = Some bs_base ->
  read_bytes m a_size 8 = Some bs_size ->
  get_mod_span core nt proc mod_ st
  = Ret (Some (mk_span (le_decode bs_base) (le_decode bs_size)),
         after st [mk_read (Some proc) a_base 8; mk_read (Some proc) a_size 8] [])
  /\ read_bytes m a_size 4 = Some (take 4 bs_size)
  /\ le_decode bs_size = read_le32 bs_size + 2 ^ 32 * le_decode (drop 4 bs_size)
  /\ (le_decode bs_size = read_le32 bs_size <-> drop 4 bs_size = replicate 4 Byte.x00).
Proof.
  intros m a_base a_size Hb Hs.
  pose proof (read_bytes_length _ _ _ _ Hb) as Lb.
  pose proof (read_bytes_length _ _ _ _ Hs) as Ls.
  assert (Hsplit : le_decode bs_size
                   = read_le32 bs_size + 2 ^ 32 * le_decode (drop 4 bs_size)).
  { unfold read_le32. rewrite <- (take_drop 4 bs_size) at 1.
    rewrite le_decode_app, length_take, Ls. reflexivity. }
  split; [|split; [|split]].
  - unfold get_mod_span, scoped. unfold bind at 1. unfold switch_process at 1.
    unfold bind at 1. unfold bind at 1. rewrite read_ptr_run.
    cbn [after cur reads logs]. unfold peek. fold m. fold a_base. rewrite Hb.
    cbn [fmap option_fmap option_map]. unfold bind at 1. rewrite read_ptr_run.
    cbn [after cur reads logs]. unfold peek. fold m. fold a_size. rewrite Hs.
    cbn [fmap option_fmap option_map].
    unfold release, bind, ret, after, ptr_read, read_le64. cbn [saved cur reads logs].
    rewrite !take_ge by lia. rewrite <- !app_assoc, !app_nil_r. reflexivity.
  - apply (read_bytes_take m 4 4). exact Hs.
  - exact Hsplit.
  - rewrite Hsplit. pose proof (le_decode_zero (drop 4 bs_size)) as Hz.
    rewrite length_drop, Ls in Hz. change (8 - 4)%nat with 4%nat in Hz.
    rewrite <- Hz. lia.
Qed.

End walker_properties.

End properties.

(** The scan on the guest [mem_kernel]: from [0x4200] the pages [0x4000],
    [0x3000] and [0x2000] are probed, in that order, and the third one is
    the image base. *)
Lemma find_kernel_backward_scan_witness :
  find_kernel guest_kernel PAGE probe_mz 3 0x4200 st0
  = Ret (Some (mk_span 0x2000 0x3000),
         mk_state None
           [mk_read None 0x4000 PAGE; mk_read None 0x3000 PAGE; mk_read None 0x2000 PAGE]
           []).
Proof.
  refine (proj1 (proj2 (proj2
    (find_kernel_backward_scan _ PAGE probe_mz 3 0x4200 st0 2 _ _ _ _ _ _))) 0x3000 _).
  - reflexivity.
  - split; [discriminate | reflexivity].
  - discriminate.
  - discriminate.
  - apply Nat.lt_succ_diag_r.
  - vm_compute. reflexivity.
  - vm_compute. reflexivity.
Defined.

(** C3 (the code at the failing input).  The loop of [find_kernel] starts
    at the enclosing page of the register value and runs while [ptr < lstar].
    For a page-aligned register value the enclosing page is the register
    value itself, so the condition is false before the first iteration: no
    page is read, none is probed, and the result is absent, for every guest
    and every probe.  On the guest whose image occupies [0x2000 .. 0x4fff]
    the pages [0x4000] and [0x3000] are readable and hold no header and
    [0x2000] holds one: from the register value [0x4001] the locator finds
    the image, from [0x4000] it reads nothing and finds none, and the
    bootstrap of a guest with that register value fails with
    [unable to find kernel]. *)
Theorem find_kernel_aligned_entry :
  (forall core read_image_size fuel n st,
      find_kernel core PAGE read_image_size (S fuel) (n * PAGE) st = Ret (None, st))
  /\ align PAGE 0x4000 = 0x4000
  /\ probe_page guest_kernel PAGE probe_mz None 0x4000 = Some None
  /\ probe_page guest_kernel PAGE probe_mz None 0x3000 = Some None
  /\ probe_page guest_kernel PAGE probe_mz None 0x2000 = Some (Some 0x3000)
  /\ find_kernel guest_kernel PAGE probe_mz 3 0x4001 st0
     = Ret (Some kernel_span, st_located)
  /\ find_kernel guest_kernel PAGE probe_mz 3 0x4000 st0 = Ret (None, st0)
  /\ make_nt guest_aligned PAGE probe_mz 3 (fun _ => 0) (fun _ => 0) st0
     = Ret (None, after st0 [] [mk_log ERROR "unable to find kernel" []]).
Proof.
  split.
  { intros core ris fuel n st. apply find_kernel_aligned; [reflexivity|].
    apply Z.mod_mul. discriminate. }
  repeat split; vm_compute; reflexivity.
Qed.

(** *** The bootstrap on concrete guests *)

(** With debug information that lacks [PsInitialSystemProcess],
    [_EPROCESS.VadRoot] and [_PEB.Ldr], all three are reported and no
    handler comes back. *)
Lemma make_nt_all_or_nothing_witness :
  exists st',
    make_nt guest_partial PAGE probe_mz 3 (fun _ => 0) (fun _ => 0) st0 = Ret (None, st')
    /\ logs st' =
       [kernel_info kernel_span;
        symbol_error (mk_symbol PsInitialSystemProcess "nt" "PsInitialSystemProcess");
        member_error (mk_member EPROCESS_VadRoot "nt" "_EPROCESS" "VadRoot");
        member_error (mk_member PEB_Ldr "nt" "_PEB" "Ldr")].
Proof.
  destruct (proj2 (proj2 (make_nt_all_or_nothing guest_partial PAGE probe_mz 3
                            (fun _ => 0) (fun _ => 0) st0))
              0x4200 kernel_span st_located kernel_image)
    as (st' & E & L & _).
  - reflexivity.
  - vm_compute. reflexivity.
  - vm_compute. reflexivity.
  - reflexivity.
  - left. vm_compute. discriminate.
  - exists st'. split; [exact E|]. rewrite L. vm_compute. reflexivity.
Defined.

(** The scenario of the specification: kernel at [K = 0x2000], register
    [K + 0x2200]; debug information that places [KiSystemCall64] at another
    address is refused with the mismatch diagnostic. *)
Lemma setup_version_check_witness :
  exists ki ok nt' st',
    sym_symbol (guest_boot 0x4300) "nt" "KiSystemCall64" = Some ki
    /\ setup (guest_boot 0x4300) PAGE probe_mz 3
             (make_unique (fun _ => 0) (fun _ => 0)) st0
       = Ret ((ok, nt'), st')
    /\ (ok = true <-> ki = 0x4200)
    /\ logs st' = logs st_located ++ [kernel_info kernel_span]
                    ++ (if ok then [] else [mismatch_error 0x4200 ki]).
Proof.
  apply (setup_version_check (guest_boot 0x4300) PAGE probe_mz 3
           (fun _ => 0) (fun _ => 0) st0 0x4200 kernel_span st_located kernel_image).
  - reflexivity.
  - vm_compute. reflexivity.
  - vm_compute. reflexivity.
  - reflexivity.
  - vm_compute. reflexivity.
  - vm_compute. reflexivity.
Defined.

Example setup_matching_build :
  exists st',
    make_nt (guest_boot 0x4200) PAGE probe_mz 3 (fun _ => 0) (fun _ => 0) st0
    = Ret (Some nt_win, st')
    /\ logs st' = [kernel_info kernel_span].
Proof. eexists. split; vm_compute; reflexivity. Qed.

Example setup_other_build :
  exists nt' st',
    setup (guest_boot 0x4300) PAGE probe_mz 3 (make_unique (fun _ => 0) (fun _ => 0)) st0
    = Ret ((false, nt'), st')
    /\ logs st' = [kernel_info kernel_span; mismatch_error 0x4200 0x4300].
Proof. eexists _, _. split; vm_compute; reflexivity. Qed.

(** *** The walkers on the concrete guests *)

Example list_procs_walk :
  exists st',
    list_procs guest nt_win 5 collect [] st0
    = Ret ((true, [proc_a; proc_c]), st')
    /\ logs st' = [mk_log ERROR "unable to read KPROCESS.DirectoryTableBase from 0x%llx"
                          [ArgX 0x20000]].
Proof. eexists. split; vm_compute; reflexivity. Qed.

(** C4 (the code at the failing input).  On the guest whose first process
    has an unmapped list link, [list_procs] shows that process to the
    visitor, fails to read the link, and then dereferences the empty
    optional: the call ends in undefined behaviour instead of ending the
    enumeration.  This is so for every walk that reaches an absent link,
    while the loop of [list_mods] stops there. *)
Theorem list_procs_absent_link :
  list_procs guest_broken nt_win 5 collect [] st0 = Undefined
  /\ peek guest_broken None 0x102f0 = None
  /\ (forall A core nt fuel (on_process : proc_t -> A -> A * walk_e) head acc st,
        list_procs_loop core nt (S fuel) on_process head None acc st = Undefined)
  /\ (forall A core nt fuel (on_mod : mod_t -> A -> A * walk_e) head acc st,
        list_mods_loop core nt (S fuel) on_mod head None acc st = Ret (acc, st)).
Proof.
  split; [vm_compute; reflexivity|]. split; [vm_compute; reflexivity|].
  split; intros; reflexivity.
Qed.

(** The running guest: GS_BASE holds a user-space value, so the control
    region is taken from KERNEL_GS_BASE and the chain leads to the process
    at [0xffffe00000010000]. *)
Lemma get_current_proc_all_or_nothing_witness :
  read_gs_base guest st0 = Ret (Some 0xfffff80000a00000, st0)
  /\ exists st',
      get_current_proc guest nt_win st0
      = Ret (Some (mk_proc 0xffffe00000010000 0x1ab000), st').
Proof.
  pose proof (get_current_proc_all_or_nothing guest nt_win st0)
    as (_ & Hk & _ & r & st' & E & _ & Hiff).
  split.
  - exact (Hk 0x7ff000 eq_refl eq_refl).
  - assert (Hr : r = Some (mk_proc 0xffffe00000010000 0x1ab000)).
    { apply Hiff.
      exists 0xfffff80000a00000, 0xffffe00000001000, 0xffffe00000010000, 0x1ab000.
      repeat split; vm_compute; reflexivity. }
    exists st'. rewrite <- Hr. exact E.
Defined.

(** The descriptor at [0x70000] declares a length of 8 and a capacity
    of 4. *)
Lemma read_unicode_string_corrupt_witness :
  read_unicode_string guest decode_ascii16 0x70000 st0
  = Ret (None, after st0 [mk_read None 0x70000 16]
                 [mk_log ERROR "corrupted UNICODE_STRING" []]).
Proof.
  apply (read_unicode_string_corrupt guest decode_ascii16 0x70000 st0
           (descriptor 8 4 0x60010)).
  - vm_compute. reflexivity.
  - vm_compute. reflexivity.
Defined.

(** The three exits of [list_mods] after the switch (the list is walked to
    its end, the visitor stops the walk, the loader pointer cannot be read),
    each from a state in which another process was selected. *)
Lemma address_space_restored_witness :
  (exists st', list_mods guest nt_win 5 proc_a collect [] st_other
               = Ret ((true, [0x7d000; 0x7c000]), st')
               /\ cur st' = Some proc_c)
  /\ (exists st', list_mods guest nt_win 5 proc_a first_only [] st_other
                  = Ret ((true, [0x7d000]), st')
                  /\ cur st' = Some proc_c)
  /\ (exists st', list_mods guest nt_win 5 proc_c collect [] st_first
                  = Ret ((false, []), st')
                  /\ cur st' = Some proc_a).
Proof.
  repeat split.
  - eexists. split; [vm_compute; reflexivity|].
    refine (proj1 (address_space_restored guest decode_ascii16 nt_win proc_a st_other)
              _ 5%nat collect [] (true, [0x7d000; 0x7c000]) _ _).
    vm_compute. reflexivity.
  - eexists. split; [vm_compute; reflexivity|].
    refine (proj1 (address_space_restored guest decode_ascii16 nt_win proc_a st_other)
              _ 5%nat first_only [] (true, [0x7d000]) _ _).
    vm_compute. reflexivity.
  - eexists. split; [vm_compute; reflexivity|].
    refine (proj1 (address_space_restored guest decode_ascii16 nt_win proc_c st_first)
              _ 5%nat collect [] (false, []) _ _).
    vm_compute. reflexivity.
Defined.

(** The first module of the process [0x10000]: the 32-bit [SizeOfImage] is
    [0x12000], the four bytes after it hold [0xdeadbeef], and the size of
    the returned span is made of both. *)
Lemma get_mod_span_pointer_width_witness :
  get_mod_span guest nt_win proc_a 0x7d000 st0
  = Ret (Some (mk_span 0x400000 0xdeadbeef00012000),
         after st0 [mk_read (Some proc_a) 0x7d030 8; mk_read (Some proc_a) 0x7d040 8] [])
  /\ read_le32 <$> read_bytes (guest_memory (Some proc_a)) 0x7d040 4 = Some 0x12000.
Proof.
  destruct (get_mod_span_pointer_width guest nt_win proc_a 0x7d000 st0
              (le_bytes 8 0x400000) (le_bytes 4 0x12000 ++ le_bytes 4 0xdeadbeef))
    as (E & E4 & _ & _).
  - vm_compute. reflexivity.
  - vm_compute. reflexivity.
  - split; [exact E|]. vm_compute. reflexivity.
Defined.

(** ** Further properties of the locator *)

Section locator_properties.

Variable core : IHandler.
Variable PAGE_SIZE : Z.
Variable read_image_size : list byte -> Z -> option Z.

Lemma sub64_page ptr :
  0 < PAGE_SIZE -> (PAGE_SIZE | U64) -> 0 <= ptr < U64 -> ptr mod PAGE_SIZE = 0 ->
  0 <= sub64 ptr PAGE_SIZE < U64 /\ sub64 ptr PAGE_SIZE mod PAGE_SIZE = 0.
Proof.
  intros Hp Hd Hr Hm. unfold sub64, wrap64. split.
  - apply Z.mod_pos_bound. reflexivity.
  - rewrite Z.mod_mod_divide by exact Hd.
    rewrite Zminus_mod, Hm, Z.mod_same by lia. reflexivity.
Qed.

Lemma find_kernel_loop_sound fuel lstar : forall ptr st sp st',
  0 < PAGE_SIZE -> (PAGE_SIZE | U64) -> 0 <= ptr < U64 -> ptr mod PAGE_SIZE = 0 ->
  find_kernel_loop core PAGE_SIZE read_image_size fuel lstar ptr st = Ret (Some sp, st') ->
  addr sp mod PAGE_SIZE = 0
  /\ 0 <= addr sp < lstar
  /\ probe_page core PAGE_SIZE read_image_size (cur st) (addr sp) = Some (Some (size sp))
  /\ cur st' = cur st /\ logs st' = logs st.
Proof.
  induction fuel as [|fuel IH]; intros ptr st sp st' Hp Hd Hr Hm; cbn [find_kernel_loop];
    [discriminate|].
  destruct (Z.ltb_spec ptr lstar) as [Hlt|Hge]; [|unfold ret; congruence].
  unfold bind, core_read. unfold probe_page.
  destruct (read_bytes (memory core (cur st)) ptr (Z.to_nat PAGE_SIZE)) as [buf|] eqn:Hrd;
    [|unfold ret; congruence].
  destruct (read_image_size buf PAGE_SIZE) as [sz|] eqn:Hsz.
  - unfold ret. intros [= <- <-]. cbn [addr size cur logs]. rewrite Hrd, Hsz.
    repeat split; try assumption; lia.
  - intros H. destruct (sub64_page ptr Hp Hd Hr Hm) as [Hr' Hm'].
    apply IH in H; assumption.
Qed.

(** X1.  Whatever [find_kernel] returns as the kernel span is sound: its
    start is a page boundary below the register value, the page there can
    be read and holds a header declaring the returned size; the scan wrote
    no diagnostic and left the selection alone. *)
Theorem find_kernel_sound (fuel : nat) (lstar : Z) (st : state) (sp : span_t) (st' : state) :
  0 < PAGE_SIZE -> (PAGE_SIZE | U64) -> 0 <= lstar < U64 ->
  find_kernel core PAGE_SIZE read_image_size fuel lstar st = Ret (Some sp, st') ->
  addr sp mod PAGE_SIZE = 0
  /\ 0 <= addr sp < lstar
  /\ probe_page core PAGE_SIZE read_image_size (cur st) (addr sp) = Some (Some (size sp))
  /\ cur st' = cur st /\ logs st' = logs st.
Proof.
  intros Hp Hd Hl. unfold find_kernel.
  pose proof (Z.mod_pos_bound lstar PAGE_SIZE Hp) as Hb.
  apply find_kernel_loop_sound; try assumption.
  - unfold align. pose proof (Z.mod_le lstar PAGE_SIZE). lia.
  - unfold align. rewrite Zminus_mod, Z.mod_mod, Z.sub_diag by lia.
    apply Z.mod_0_l. lia.
Qed.

Lemma find_kernel_loop_returns fuel lstar : forall ptr st,
  0 < PAGE_SIZE -> lstar + PAGE_SIZE <= U64 -> 0 <= ptr <= lstar ->
  (Z.to_nat (ptr / PAGE_SIZE) + 2 <= fuel)%nat ->
  exists r st',
    find_kernel_loop core PAGE_SIZE read_image_size fuel lstar ptr st = Ret (r, st').
Proof.
  induction fuel as [|fuel IH]; intros ptr st Hp Hl Hr Hf; [lia|].
  cbn [find_kernel_loop].
  destruct (Z.ltb_spec ptr lstar) as [Hlt|Hge]; [|eexists _, _; reflexivity].
  unfold bind, core_read.
  destruct (read_bytes (memory core (cur st)) ptr (Z.to_nat PAGE_SIZE)) as [buf|];
    [|eexists _, _; reflexivity].
  destruct (read_image_size buf PAGE_SIZE) as [sz|]; [eexists _, _; reflexivity|].
  destruct (Z_lt_le_dec ptr PAGE_SIZE) as [Hsmall|Hbig].
  - assert (Hw : sub64 ptr PAGE_SIZE = ptr - PAGE_SIZE + U64).
    { unfold sub64, wrap64. symmetry. apply (Z.mod_unique _ _ (-1)); lia. }
    destruct fuel as [|fuel]; [lia|]. cbn [find_kernel_loop].
    destruct (Z.ltb_spec (sub64 ptr PAGE_SIZE) lstar) as [Hlt'|Hge']; [lia|].
    eexists _, _. reflexivity.
  - assert (Hw : sub64 ptr PAGE_SIZE = ptr - PAGE_SIZE).
    { unfold sub64, wrap64. apply Z.mod_small. lia. }
    rewrite Hw. apply IH; try assumption; [lia|].
    assert (Hq : (ptr - PAGE_SIZE) / PAGE_SIZE = ptr / PAGE_SIZE - 1).
    { replace (ptr - PAGE_SIZE) with (ptr + (-1) * PAGE_SIZE) by lia.
      rewrite Z.div_add by lia. lia. }
    assert (1 <= ptr / PAGE_SIZE) by (apply Z.div_le_lower_bound; lia).
    rewrite Hq. lia.
Qed.

(** X2.  For a register value that is not in the last page of the address
    space the scan ends whatever guest memory holds: one iteration per page
    between address zero and the register value, and one more, are
    enough. *)
Theorem find_kernel_returns (fuel : nat) (lstar : Z) (st : state) :
  0 < PAGE_SIZE -> 0 <= lstar -> lstar + PAGE_SIZE <= U64 ->
  (Z.to_nat (lstar / PAGE_SIZE) + 2 <= fuel)%nat ->
  exists r st',
    find_kernel core PAGE_SIZE read_image_size fuel lstar st = Ret (r, st').
Proof.
  intros Hp Hl Hu Hf. unfold find_kernel.
  pose proof (Z.mod_pos_bound lstar PAGE_SIZE Hp) as Hb.
  assert (Ha : 0 <= align PAGE_SIZE lstar <= lstar).
  { unfold align. pose proof (Z.mod_le lstar PAGE_SIZE). lia. }
  apply find_kernel_loop_returns; try assumption.
  assert (align PAGE_SIZE lstar / PAGE_SIZE <= lstar / PAGE_SIZE)
    by (apply Z.div_le_mono; lia).
  lia.
Qed.

Lemma find_kernel_loop_wraps fuel lstar c : forall ptr st,
  0 < PAGE_SIZE -> (PAGE_SIZE | U64) -> U64 - PAGE_SIZE < lstar ->
  (forall p, probe_page core PAGE_SIZE read_image_size c p = Some None) ->
  cur st = c -> 0 <= ptr < U64 -> ptr mod PAGE_SIZE = 0 ->
  find_kernel_loop core PAGE_SIZE read_image_size fuel lstar ptr st = OutOfFuel.
Proof.
  induction fuel as [|fuel IH]; intros ptr st Hp Hd Hl Hblank Hc Hr Hm;
    cbn [find_kernel_loop]; [reflexivity|].
  assert (Hle : ptr <= U64 - PAGE_SIZE).
  { destruct Hd as [q Hq]. apply Z.mod_divide in Hm as [k Hk]; [|lia].
    assert (k < q) by (apply (Z.mul_lt_mono_pos_r PAGE_SIZE); lia).
    assert ((k + 1) * PAGE_SIZE <= q * PAGE_SIZE)
      by (apply Z.mul_le_mono_nonneg_r; lia).
    lia. }
  destruct (Z.ltb_spec ptr lstar) as [Hlt|Hge]; [|lia].
  pose proof (Hblank ptr) as Hb. unfold probe_page in Hb. rewrite <- Hc in Hb.
  unfold bind, core_read.
  destruct (read_bytes (memory core (cur st)) ptr (Z.to_nat PAGE_SIZE)) as [buf|];
    [|discriminate].
  injection Hb as ->.
  destruct (sub64_page ptr Hp Hd Hr Hm) as [Hr' Hm'].
  apply IH; assumption.
Qed.

(** X3.  For a register value in the last page of the address space the
    subtraction wraps around from page zero to the last page, which is
    again below the register value: when every page can be read and none
    holds a header, the scan never ends, however many iterations it is
    given. *)
Theorem find_kernel_wraps_around (lstar : Z) (st : state) :
  0 < PAGE_SIZE -> (PAGE_SIZE | U64) -> U64 - PAGE_SIZE < lstar < U64 ->
  (forall p, probe_page core PAGE_SIZE read_image_size (cur st) p = Some None) ->
  forall fuel, find_kernel core PAGE_SIZE read_image_size fuel lstar st = OutOfFuel.
Proof.
  intros Hp Hd Hl Hblank fuel. unfold find_kernel.
  pose proof (Z.mod_pos_bound lstar PAGE_SIZE Hp) as Hb.
  assert (PAGE_SIZE <= U64) by (apply Z.divide_pos_le; [reflexivity | exact Hd]).
  apply (find_kernel_loop_wraps fuel lstar (cur st)); try assumption; try lia.
  - reflexivity.
  - unfold align. pose proof (Z.mod_le lstar PAGE_SIZE). lia.
  - unfold align. rewrite Zminus_mod, Z.mod_mod, Z.sub_diag by lia.
    apply Z.mod_0_l. lia.
Qed.

Lemma read_bytes_mapped (m : Z -> option byte) (n : nat) : forall a,
  (forall x, m x <> None) -> exists bs, read_bytes m a n = Some bs.
Proof.
  induction n as [|n IH]; intros a Hm; cbn [read_bytes]; [eexists; reflexivity|].
  destruct (m a) as [b|] eqn:E; [|destruct (Hm a E)].
  destruct (IH (add64 a 1) Hm) as [bs ->]. eexists. reflexivity.
Qed.

Lemma find_kernel_defined fuel lstar st :
  find_kernel core PAGE_SIZE read_image_size fuel lstar st <> Undefined.
Proof.
  unfold find_kernel. generalize (align PAGE_SIZE lstar). revert st.
  induction fuel as [|n IH]; intros st ptr; cbn [find_kernel_loop]; [discriminate|].
  destruct (ptr <? lstar); [|discriminate]. unfold bind, core_read.
  destruct (read_bytes _ _ _) as [buf|]; [|discriminate].
  destruct (read_image_size buf PAGE_SIZE); [discriminate|]. apply IH.
Qed.

(** ** Further properties of the bootstrap *)

(** How far [setup] gets does not depend on the handler it works on: it
    fails before the catalogs and leaves the handler alone, or it is still
    scanning, or it reaches the catalogs. *)
Lemma setup_stages fuel st :
  (exists st', forall nt,
      setup core PAGE_SIZE read_image_size fuel nt st = Ret ((false, nt), st'))
  \/ (forall nt, setup core PAGE_SIZE read_image_size fuel nt st = OutOfFuel)
  \/ (exists lstar kernel st1 image,
        regs_read core MSR_LSTAR = Some lstar
        /\ find_kernel core PAGE_SIZE read_image_size fuel lstar st = Ret (Some kernel, st1)
        /\ read_bytes (memory core (cur st1)) (addr kernel) (Z.to_nat (size kernel))
           = Some image
        /\ sym_insert core "nt" kernel image = true).
Proof.
  unfold setup.
  destruct (regs_read core MSR_LSTAR) as [lstar|] eqn:Hreg.
  2:{ left. eexists. intros nt. reflexivity. }
  destruct (find_kernel core PAGE_SIZE read_image_size fuel lstar st)
    as [[[kernel|] st1]| |] eqn:Hk.
  2:{ left. eexists. intros nt. unfold bind at 1. rewrite Hk. reflexivity. }
  2:{ destruct (find_kernel_defined _ _ _ Hk). }
  2:{ right. left. intros nt. unfold bind at 1. rewrite Hk. reflexivity. }
  destruct (read_bytes (memory core (cur st1)) (addr kernel) (Z.to_nat (size kernel)))
    as [image|] eqn:Hrd.
  2:{ left. eexists. intros nt. unfold bind at 1. rewrite Hk.
      unfold bind at 1. unfold LOG at 1. unfold bind at 1. unfold core_read at 1.
      cbv beta iota. cbn [cur reads logs]. rewrite Hrd. reflexivity. }
  destruct (sym_insert core "nt" kernel image) eqn:Hins.
  2:{ left. eexists. intros nt. unfold bind at 1. rewrite Hk.
      unfold bind at 1. unfold LOG at 1. unfold bind at 1. unfold core_read at 1.
      cbv beta iota. cbn [cur reads logs]. rewrite Hrd, Hins. reflexivity. }
  right. right. exists lstar, kernel, st1, image. repeat split; assumption.
Qed.

(** X4.  The four preconditions of the catalog resolution are hard ones:
    an unreadable LSTAR fails [setup] without a read or a diagnostic; a
    kernel that is not found, an image that cannot be read in full and an
    image the symbol store refuses each fail it with their own diagnostic;
    in all four cases the arrays of the handler are left as they were. *)
Theorem setup_preconditions (fuel : nat) (nt : OsNt) (st : state) :
  (regs_read core MSR_LSTAR = None ->
   setup core PAGE_SIZE read_image_size fuel nt st = Ret ((false, nt), st))
  /\ (forall lstar st1,
      regs_read core MSR_LSTAR = Some lstar ->
      find_kernel core PAGE_SIZE read_image_size fuel lstar st = Ret (None, st1) ->
      setup core PAGE_SIZE read_image_size fuel nt st
      = Ret ((false, nt), after st1 [] [mk_log ERROR "unable to find kernel" []]))
  /\ (forall lstar kernel st1,
      regs_read core MSR_LSTAR = Some lstar ->
      find_kernel core PAGE_SIZE read_image_size fuel lstar st = Ret (Some kernel, st1) ->
      read_bytes (memory core (cur st1)) (addr kernel) (Z.to_nat (size kernel)) = None ->
      setup core PAGE_SIZE read_image_size fuel nt st
      = Ret ((false, nt),
             after st1 [mk_read (cur st1) (addr kernel) (size kernel)]
               [kernel_info kernel; mk_log ERROR "unable to read kernel module" []]))
  /\ (forall lstar kernel st1 image,
      regs_read core MSR_LSTAR = Some lstar ->
      find_kernel core PAGE_SIZE read_image_size fuel lstar st = Ret (Some kernel, st1) ->
      read_bytes (memory core (cur st1)) (addr kernel) (Z.to_nat (size kernel))
      = Some image ->
      sym_insert core "nt" kernel image = false ->
      setup core PAGE_SIZE read_image_size fuel nt st
      = Ret ((false, nt),
             after st1 [mk_read (cur st1) (addr kernel) (size kernel)]
               [kernel_info kernel;
                mk_log ERROR "unable to load symbols from kernel module" []])).
Proof.
  unfold setup. split; [|split; [|split]].
  - intros ->. reflexivity.
  - intros lstar st1 -> Hk. unfold bind at 1. rewrite Hk.
    unfold FAIL, LOG, bind, ret, after. rewrite app_nil_r. reflexivity.
  - intros lstar kernel st1 -> Hk Hrd. unfold bind at 1. rewrite Hk.
    unfold bind at 1. unfold LOG at 1. unfold bind at 1. unfold core_read at 1.
    cbv beta iota. cbn [cur reads logs]. rewrite Hrd.
    unfold FAIL, LOG, bind, ret, after, kernel_info. cbn [cur reads logs].
    rewrite <- app_assoc. reflexivity.
  - intros lstar kernel st1 image -> Hk Hrd Hins. unfold bind at 1. rewrite Hk.
    unfold bind at 1. unfold LOG at 1. unfold bind at 1. unfold core_read at 1.
    cbv beta iota. cbn [cur reads logs]. rewrite Hrd, Hins. cbn [negb].
    unfold FAIL, LOG, bind, ret, after, kernel_info. cbn [cur reads logs].
    rewrite <- app_assoc. reflexivity.
Qed.

Lemma fully_populated_unique nt1 nt2 :
  fully_populated core nt1 -> fully_populated core nt2 -> nt1 = nt2.
Proof.
  intros (Ls1 & Lm1 & Fs1 & Fm1) (Ls2 & Lm2 & Fs2 & Fm2).
  destruct nt1 as [m1 s1], nt2 as [m2 s2]. cbn [symbols_ members_] in *.
  f_equal; apply list_eq; intros i.
  - destruct (decide (i < MEMBER_OFFSET_COUNT)%nat) as [Hi|Hi].
    + destruct (lookup_lt_is_Some_2 g_member_offsets i) as [mo Hmo];
        [rewrite g_member_offsets_count; exact Hi|].
      pose proof (Forall_lookup_1 _ _ _ _ Fm1 Hmo) as E1.
      pose proof (Forall_lookup_1 _ _ _ _ Fm2 Hmo) as E2.
      unfold member in E1, E2. cbn [members_] in E1, E2.
      rewrite (g_member_offsets_keys i mo Hmo) in E1, E2.
      rewrite E1 in E2. injection E2 as E. unfold tbl_at in E.
      destruct (lookup_lt_is_Some_2 m1 i) as [x1 H1]; [lia|].
      destruct (lookup_lt_is_Some_2 m2 i) as [x2 H2]; [lia|].
      rewrite H1, H2 in *. cbn in E. congruence.
    + rewrite !lookup_ge_None_2 by lia. reflexivity.
  - destruct (decide (i < SYMBOL_OFFSET_COUNT)%nat) as [Hi|Hi].
    + destruct (lookup_lt_is_Some_2 g_symbol_offsets i) as [so Hso];
        [rewrite g_symbol_offsets_count; exact Hi|].
      pose proof (Forall_lookup_1 _ _ _ _ Fs1 Hso) as E1.
      pose proof (Forall_lookup_1 _ _ _ _ Fs2 Hso) as E2.
      unfold symbol in E1, E2. cbn [symbols_] in E1, E2.
      rewrite (g_symbol_offsets_keys i so Hso) in E1, E2.
      rewrite E1 in E2. injection E2 as E. unfold tbl_at in E.
      destruct (lookup_lt_is_Some_2 s1 i) as [x1 H1]; [lia|].
      destruct (lookup_lt_is_Some_2 s2 i) as [x2 H2]; [lia|].
      rewrite H1, H2 in *. cbn in E. congruence.
    + rewrite !lookup_ge_None_2 by lia. reflexivity.
Qed.

(** X5.  A handler is only handed out for a consistent guest: LSTAR was
    read, the kernel was located, no catalog entry is missing, and the
    address the handler holds for [KiSystemCall64], which is the one the
    symbol store resolves, is the LSTAR value; the only diagnostic of the
    bootstrap is then the kernel line. *)
Theorem make_nt_handler_consistent (fuel : nat) (gm gs : nat -> Z) (st : state)
    (nt : OsNt) (st' : state) :
  make_nt core PAGE_SIZE read_image_size fuel gm gs st = Ret (Some nt, st') ->
  exists lstar kernel st1,
    regs_read core MSR_LSTAR = Some lstar
    /\ find_kernel core PAGE_SIZE read_image_size fuel lstar st = Ret (Some kernel, st1)
    /\ symbol nt KiSystemCall64 = lstar
    /\ sym_symbol core "nt" "KiSystemCall64" = Some lstar
    /\ missing_symbols core = [] /\ missing_members core = []
    /\ logs st' = logs st1 ++ [kernel_info kernel].
Proof.
  unfold make_nt. cbv zeta. unfold bind.
  destruct (setup_stages fuel st) as [[st2 E]|[E|(lstar & kernel & st1 & image & H)]].
  - rewrite E. cbn [fst snd negb]. discriminate.
  - rewrite E. discriminate.
  - destruct H as (Hreg & Hk & Hrd & Hins).
    destruct (make_unique_sizes gm gs) as [Hls Hlm].
    destruct (setup_resolution core PAGE_SIZE read_image_size fuel _ st lstar kernel st1
                image Hreg Hk Hrd Hins Hls Hlm) as (nt' & E & Hfull).
    cbv zeta in E, Hfull. rewrite E. cbn [fst snd].
    destruct (existsb (symbol_unresolved core) g_symbol_offsets
              || existsb (member_unresolved core) g_member_offsets) eqn:Hmiss;
      cbn [negb andb]; [discriminate|].
    destruct (lstar =? symbol nt' KiSystemCall64) eqn:Hki; cbn [negb]; [|discriminate].
    unfold ret. intros [= <- <-]. apply Z.eqb_eq in Hki.
    destruct (Hfull eq_refl) as (_ & _ & Hsym & _).
    apply Forall_cons_1 in Hsym as [Hsym _]. cbn [s_module s_name s_id] in Hsym.
    apply orb_false_elim in Hmiss as [Hs Hm]. apply existsb_filter_nil in Hs, Hm.
    exists lstar, kernel, st1. unfold missing_symbols, missing_members.
    rewrite Hs, Hm. cbn [logs map app]. rewrite <- Hki in Hsym.
    repeat split; try assumption; try reflexivity. symmetry. exact Hki.
Qed.

(** X6.  The indeterminate content the arrays start with never shows: the
    outcome of [make_nt], the handler and the state alike, is the same for
    any two initial contents. *)
Theorem make_nt_ignores_initial_content (fuel : nat) (gm gs gm' gs' : nat -> Z)
    (st : state) :
  make_nt core PAGE_SIZE read_image_size fuel gm gs st
  = make_nt core PAGE_SIZE read_image_size fuel gm' gs' st.
Proof.
  unfold make_nt. cbv zeta. unfold bind.
  destruct (setup_stages fuel st) as [[st2 E]|[E|(lstar & kernel & st1 & image & H)]].
  - rewrite !E. reflexivity.
  - rewrite !E. reflexivity.
  - destruct H as (Hreg & Hk & Hrd & Hins).
    destruct (make_unique_sizes gm gs) as [Hls Hlm].
    destruct (make_unique_sizes gm' gs') as [Hls' Hlm'].
    destruct (setup_resolution core PAGE_SIZE read_image_size fuel _ st lstar kernel st1
                image Hreg Hk Hrd Hins Hls Hlm) as (nt1 & E1 & Hfull1).
    destruct (setup_resolution core PAGE_SIZE read_image_size fuel _ st lstar kernel st1
                image Hreg Hk Hrd Hins Hls' Hlm') as (nt2 & E2 & Hfull2).
    cbv zeta in E1, E2, Hfull1, Hfull2. rewrite E1, E2. cbn [fst snd].
    destruct (existsb (symbol_unresolved core) g_symbol_offsets
              || existsb (member_unresolved core) g_member_offsets) eqn:Hmiss;
      cbn [negb andb]; [reflexivity|].
    rewrite (fully_populated_unique nt1 nt2 (Hfull1 eq_refl) (Hfull2 eq_refl)).
    reflexivity.
Qed.

End locator_properties.

(** ** Further properties of the walkers *)

Section walker_more.

Variable core : IHandler.
Variable utf8_convert : list byte -> option string.
Variable path_filename : string -> string.
Variable nt : OsNt.

(** *** Names *)

(** [get_proc_name] always returns, with the name as a function of guest
    memory; it reads under the caller's selection and keeps it. *)
Lemma get_proc_name_run proc st :
  exists rs ls,
    get_proc_name core utf8_convert path_filename nt proc st
    = Ret (proc_name core utf8_convert path_filename nt (cur st) proc, after st rs ls)
    /\ Forall (fun e => r_ctx e = cur st) rs.
Proof.
  unfold get_proc_name, proc_name. unfold bind at 1. unfold core_read at 1.
  change (Z.to_nat 15) with 15%nat. cbn [cur reads logs].
  destruct (read_bytes (memory core (cur st)) _ 15) as [buffer|].
  2:{ eexists [_], []. unfold ret, after. rewrite app_nil_r.
      split; [reflexivity | repeat constructor]. }
  destruct (String.length (c_string (<[14%nat:=Byte.x00]> buffer)) <? 14)%nat.
  { eexists [_], []. unfold ret, after. rewrite app_nil_r.
    split; [reflexivity | repeat constructor]. }
  unfold bind at 1. rewrite read_ptr_run. unfold full_path. cbn [after cur reads logs].
  destruct (peek core (cur st) _) as [ifn|].
  { unfold bind.
    match goal with
    | |- context [read_unicode_string core utf8_convert ?a ?s] =>
      destruct (read_unicode_string_run core utf8_convert a s) as (rs & ls & E & Hrs)
    end.
    rewrite E. cbn [after cur reads logs] in *.
    eexists (_ :: _ :: _ :: rs), ls. unfold ret, after, ptr_read. cbn [cur reads logs].
    rewrite <- ?app_assoc, ?app_nil_r. cbn [app].
    split; [destruct (unicode_text _ _ _ _); reflexivity|].
    repeat (constructor; [reflexivity|]). exact Hrs. }
  eexists [_; _], []. unfold ret, after, ptr_read. cbn [cur reads logs].
  rewrite <- ?app_assoc, ?app_nil_r. cbn [app].
  split; [reflexivity | repeat constructor].
Qed.

(** X7.  Name resolution is best effort: [get_proc_name] always returns,
    keeps the selection, and its result is absent exactly when the 15 bytes
    of the image-name field cannot be read; no failure of the fallback
    makes it absent. *)
Theorem get_proc_name_absent_iff (proc : proc_t) (st : state) :
  exists r st',
    get_proc_name core utf8_convert path_filename nt proc st = Ret (r, st')
    /\ cur st' = cur st
    /\ (r = None <->
        read_bytes (memory core (cur st))
                   (add64 (id proc) (member nt EPROCESS_ImageFileName)) 15 = None).
Proof.
  destruct (get_proc_name_run proc st) as (rs & ls & E & _).
  eexists _, _. split; [exact E|]. split; [reflexivity|].
  unfold proc_name.
  destruct (read_bytes (memory core (cur st)) _ 15) as [buffer|]; [|tauto].
  destruct (String.length _ <? 14)%nat; split; discriminate.
Qed.

Lemma c_string_cons b bs :
  b <> Byte.x00 -> c_string (b :: bs) = String (ascii_of_byte b) (c_string bs).
Proof. intros Hb. destruct b; try reflexivity; congruence. Qed.

Lemma c_string_bytes (s : string) (rest : list byte) :
  no_nul s -> c_string (bytes_of_string s ++ Byte.x00 :: rest) = s.
Proof.
  unfold bytes_of_string. induction s as [|c s IH]; cbn [no_nul]; [reflexivity|].
  intros [Hc Hs]. cbn [list_ascii_of_string map app].
  rewrite c_string_cons.
  - rewrite ascii_of_byte_of_ascii, (IH Hs). reflexivity.
  - intros E. apply Hc. rewrite <- (ascii_of_byte_of_ascii c), E. reflexivity.
Qed.

Lemma bytes_of_string_length s : length (bytes_of_string s) = String.length s.
Proof.
  unfold bytes_of_string. rewrite length_map.
  induction s as [|c s IH]; cbn; congruence.
Qed.

(** X8.  Round trip of a short name: when the image-name field holds the
    bytes of a text of fewer than 14 characters without NUL, followed by a
    NUL and anything else, [get_proc_name] returns exactly that text. *)
Theorem get_proc_name_short_round_trip (s : string) (pad : list byte)
    (proc : proc_t) (st : state) :
  no_nul s -> (String.length s < 14)%nat ->
  read_bytes (memory core (cur st))
             (add64 (id proc) (member nt EPROCESS_ImageFileName)) 15
  = Some (bytes_of_string s ++ Byte.x00 :: pad) ->
  exists st',
    get_proc_name core utf8_convert path_filename nt proc st = Ret (Some s, st').
Proof.
  intros Hs Hlen Hrd. destruct (get_proc_name_run proc st) as (rs & ls & E & _).
  eexists. rewrite E. f_equal. f_equal. unfold proc_name. rewrite Hrd.
  rewrite insert_app_r_alt by (rewrite bytes_of_string_length; lia).
  rewrite bytes_of_string_length.
  destruct (14 - String.length s)%nat as [|k] eqn:Hk; [lia|].
  cbn [insert list_insert]. rewrite (c_string_bytes s _ Hs).
  apply Nat.ltb_lt in Hlen as ->. reflexivity.
Qed.

(** X9.  A well-formed descriptor is read in two steps: the 16 bytes of
    the descriptor, then exactly [length] bytes (not [max_length]) at
    [buffer]; the decoder gets those bytes and nothing is logged.  If the
    buffer cannot be read the result is absent, with a diagnostic. *)
Theorem read_unicode_string_reads_length (a : Z) (st : state) (us : list byte) :
  read_bytes (memory core (cur st)) a 16 = Some us ->
  read_le16 us <= read_le16 (drop 2 us) ->
  let buffer := read_le64 (drop 8 us) in
  let len := read_le16 us in
  let rs := [mk_read (cur st) a 16; mk_read (cur st) buffer len] in
  (forall buf,
      read_bytes (memory core (cur st)) buffer (Z.to_nat len) = Some buf ->
      read_unicode_string core utf8_convert a st
      = Ret (utf8_convert buf, after st rs []))
  /\ (read_bytes (memory core (cur st)) buffer (Z.to_nat len) = None ->
      read_unicode_string core utf8_convert a st
      = Ret (None, after st rs [mk_log ERROR "unable to read UNICODE_STRING.buffer" []])).
Proof.
  intros Hrd Hle buffer len rs. unfold read_unicode_string.
  unfold bind at 1 3. unfold core_read at 1 3. cbn [cur reads logs].
  change (Z.to_nat 16) with 16%nat. rewrite Hrd.
  assert (Hlt : (read_le16 (drop 2 us) <? read_le16 us) = false) by (apply Z.ltb_ge; lia).
  rewrite Hlt. unfold bind, core_read. cbn [cur reads logs]. fold buffer. fold len.
  split.
  - intros buf ->. unfold ret, after, rs.
    rewrite <- app_assoc, app_nil_r. reflexivity.
  - intros ->. unfold FAIL, LOG, bind, ret, after, rs. cbn [cur reads logs].
    rewrite <- app_assoc. reflexivity.
Qed.

(** *** Process enumeration *)

Lemma list_procs_loop_linked {A} (f : proc_t -> A -> A * walk_e) (head : Z)
    (c : option proc_t) (nodes : list Z) : forall fuel a acc st,
  cur st = c ->
  linked core c head a nodes (Some head) ->
  (length nodes < fuel)%nat ->
  exists st',
    list_procs_loop core nt fuel f head (peek core c a) acc st
    = Ret (visit f (omap (proc_at core nt c) nodes) acc, st')
    /\ cur st' = c.
Proof.
  induction nodes as [|l rest IH]; intros fuel a acc st Hc Hl Hf;
    (destruct fuel as [|fuel]; [cbn in Hf; lia|]); cbn [linked] in Hl.
  - rewrite Hl. cbn [list_procs_loop opt_ne]. rewrite Z.eqb_refl.
    eexists. split; [reflexivity | exact Hc].
  - destruct Hl as (Ha & Hne & Hrest). rewrite Ha.
    cbn [list_procs_loop opt_ne]. apply Z.eqb_neq in Hne as ->. cbn [negb].
    cbn [omap list_omap]. unfold proc_at at 1.
    unfold bind at 1. rewrite read_ptr_run, Hc.
    destruct (peek core c (add64 (add64 _ _) _)) as [d|];
      cbn [fmap option_fmap option_map visit].
    + destruct (f _ acc) as [acc' [|]].
      * eexists. split; [reflexivity | exact Hc].
      * unfold bind. rewrite read_ptr_run. cbn [after cur]. rewrite Hc.
        apply (IH fuel l acc'); [first [exact Hc | reflexivity] | exact Hrest | cbn in Hf; lia].
    + unfold bind at 1. unfold LOG at 1. unfold bind at 1. rewrite read_ptr_run.
      cbn [after cur reads logs]. rewrite Hc.
      apply (IH fuel l acc); [first [exact Hc | reflexivity] | exact Hrest | cbn in Hf; lia].
Qed.

(** X10.  On a well-formed circular list (the head leads to the first node,
    every node to the next, the last one back to the head) [list_procs]
    returns [true] after showing the visitor, in list order and until it
    says stop, exactly the processes of the nodes whose page-table root can
    be read; the selection is kept.  One iteration per node and one more
    are enough. *)
Theorem list_procs_linked {A} (f : proc_t -> A -> A * walk_e) (nodes : list Z)
    (fuel : nat) (acc : A) (st : state) :
  let head := symbol nt PsActiveProcessHead in
  linked core (cur st) head head nodes (Some head) ->
  (length nodes < fuel)%nat ->
  exists st',
    list_procs core nt fuel f acc st
    = Ret ((true, visit f (omap (proc_at core nt (cur st)) nodes) acc), st')
    /\ cur st' = cur st.
Proof.
  intros head Hl Hf. unfold list_procs. fold head.
  unfold bind at 1. rewrite read_ptr_run.
  destruct (list_procs_loop_linked f head (cur st) nodes fuel head acc
              (after st [ptr_read st head] []) eq_refl Hl Hf) as (st' & E & Hc).
  unfold bind. rewrite E. eexists. split; [reflexivity | exact Hc].
Qed.

Lemma bind_read_ptr {B} a (k : option Z -> M B) st :
  bind (read_ptr core a) k st = k (peek core (cur st) a) (after st [ptr_read st a] []).
Proof. unfold bind at 1. rewrite read_ptr_run. reflexivity. Qed.

Lemma bind_ret {B C} (x : B) (k : B -> M C) st : bind (ret x) k st = k x st.
Proof. reflexivity. Qed.

Lemma bind_LOG {B} lvl f a (k : unit -> M B) st :
  bind (LOG lvl f a) k st = k tt (after st [] [mk_log lvl f a]).
Proof. unfold bind, LOG, after. rewrite app_nil_r. reflexivity. Qed.

(** The walk for a visitor that reads nothing is the walk of [list_procs]. *)
Lemma walk_procs_pure {A} (f : proc_t -> A -> A * walk_e) (head : Z) (fuel : nat) :
  forall link acc st,
    walk_procs core nt fuel (fun p a => ret (f p a)) head link acc st
    = list_procs_loop core nt fuel f head link acc st.
Proof.
  induction fuel as [|fuel IH]; intros link acc st; cbn [walk_procs list_procs_loop];
    [reflexivity|].
  destruct (opt_ne link head); [|reflexivity].
  destruct link as [l|]; [|reflexivity].
  rewrite !bind_read_ptr.
  destruct (peek core (cur st) _) as [d|].
  - rewrite bind_ret. destruct (f _ acc) as [acc' [|]]; cbn [fst snd].
    + reflexivity.
    + rewrite !bind_read_ptr. apply IH.
  - rewrite !bind_LOG, !bind_read_ptr. apply IH.
Qed.

(** *** Lookup by name *)

Lemma named_spec c name p :
  named core utf8_convert path_filename nt c name p = true
  <-> proc_name core utf8_convert path_filename nt c p = Some name.
Proof.
  unfold named, name_ne.
  destruct (proc_name core utf8_convert path_filename nt c p) as [g|]; cbn.
  - rewrite negb_involutive, String.eqb_eq. split; congruence.
  - split; discriminate.
Qed.

Lemma cur_after st rs ls : cur (after st rs ls) = cur st.
Proof. reflexivity. Qed.

Lemma bind_run {B C} (m : M B) (k : B -> M C) st x st' :
  m st = Ret (x, st') -> bind m k st = k x st'.
Proof. unfold bind. intros ->. reflexivity. Qed.

Lemma get_proc_visit_run name p found st :
  exists rs ls,
    get_proc_visit core utf8_convert path_filename nt name p found st
    = Ret (if name_ne (proc_name core utf8_convert path_filename nt (cur st) p) name
           then (found, WALK_NEXT) else (Some p, WALK_STOP),
           after st rs ls).
Proof.
  unfold get_proc_visit. destruct (get_proc_name_run p st) as (rs & ls & E & _).
  rewrite (bind_run _ _ _ _ _ E). exists rs, ls.
  destruct (name_ne _ name); reflexivity.
Qed.

Lemma walk_procs_get_proc (name : string) (head : Z) (c : option proc_t) (fuel : nat) :
  forall link acc sa ps sa' sb,
    cur sa = c -> cur sb = c ->
    list_procs_loop core nt fuel collect head link acc sa = Ret (ps, sa') ->
    exists rest sb',
      ps = acc ++ rest
      /\ walk_procs core nt fuel (get_proc_visit core utf8_convert path_filename nt name)
           head link None sb
         = Ret (List.find (named core utf8_convert path_filename nt c name) rest, sb')
      /\ cur sb' = c.
Proof.
  induction fuel as [|fuel IH]; intros link acc sa ps sa' sb Ha Hb;
    cbn [walk_procs list_procs_loop]; [discriminate|].
  destruct (opt_ne link head).
  2:{ unfold ret. intros [= <- _]. exists [], sb. rewrite app_nil_r.
      repeat split; assumption. }
  destruct link as [l|]; [|discriminate].
  rewrite !bind_read_ptr, Ha, Hb.
  destruct (peek core c (add64 (add64 _ _) _)) as [d|].
  - set (p := mk_proc _ d). unfold collect at 1.
    match goal with
    | |- context [bind (get_proc_visit _ _ _ _ name p None) _ ?s] =>
      destruct (get_proc_visit_run name p None s) as (rs & ls & E);
      rewrite (bind_run _ _ _ _ _ E)
    end.
    rewrite cur_after, Hb.
    destruct (name_ne (proc_name core utf8_convert path_filename nt c p) name) eqn:Hne;
      cbn [fst snd]; rewrite ?bind_read_ptr, ?cur_after, ?Ha, ?Hb; intros H.
    + match goal with
      | |- context [walk_procs _ _ _ _ _ _ _ ?s] =>
        match type of H with
        | list_procs_loop _ _ _ _ _ _ _ ?t = _ =>
          destruct (IH _ _ t _ _ s Ha Hb H) as (rest & sb' & -> & Ew & Hc)
        end
      end.
      exists (p :: rest), sb'. rewrite <- app_assoc. cbn [app List.find].
      unfold named at 1. rewrite Hne. cbn [negb].
      repeat split; assumption.
    + match type of H with
      | list_procs_loop _ _ _ _ _ _ _ ?t = _ =>
        destruct (IH _ _ t _ _ sb Ha Hb H) as (rest & _ & -> & _ & _)
      end.
      exists (p :: rest). eexists. rewrite <- app_assoc. cbn [app List.find].
      unfold named at 1. rewrite Hne. cbn [negb].
      repeat split; reflexivity || exact Hb.
  - rewrite !bind_LOG, !bind_read_ptr, ?cur_after, ?Ha, ?Hb. intros H.
    match goal with
    | |- context [walk_procs _ _ _ _ _ _ _ ?s] =>
      match type of H with
      | list_procs_loop _ _ _ _ _ _ _ ?t = _ =>
        destruct (IH _ _ t _ _ s Ha Hb H) as (rest & sb' & -> & Ew & Hc)
      end
    end.
    exists rest, sb'. repeat split; assumption.
Qed.

(** X11.  [get_proc] agrees with the enumeration: whenever [list_procs]
    returns the processes [ps] to the visitor that records them,
    [get_proc name] returns the first of [ps], in list order, whose name is
    [name], and nothing if there is none; the process it returns is named
    [name]; the selection is kept. *)
Theorem get_proc_first_match (fuel : nat) (name : string) (st : state)
    (b : bool) (ps : list proc_t) (st1 : state) :
  list_procs core nt fuel collect [] st = Ret ((b, ps), st1) ->
  exists r st',
    get_proc core utf8_convert path_filename nt fuel name st = Ret (r, st')
    /\ cur st' = cur st
    /\ r = List.find (named core utf8_convert path_filename nt (cur st) name) ps
    /\ (forall p, r = Some p ->
          In p ps /\ proc_name core utf8_convert path_filename nt (cur st) p = Some name)
    /\ (r = None ->
          forall p, In p ps ->
            proc_name core utf8_convert path_filename nt (cur st) p <> Some name).
Proof.
  unfold list_procs. rewrite bind_read_ptr. unfold bind at 1.
  destruct (list_procs_loop _ _ _ _ _ _ _ _) as [[ps' sa']| |] eqn:El; [|discriminate..].
  unfold ret. intros [= _ <- _].
  unfold get_proc, list_procs_with. unfold bind at 1. rewrite bind_read_ptr.
  unfold bind at 1.
  destruct (walk_procs_get_proc name _ (cur st) fuel _ _ _ _ _
              (after st [ptr_read st (symbol nt PsActiveProcessHead)] [])
              (cur_after _ _ _) (cur_after _ _ _) El) as (rest & sb' & -> & Ew & Hc).
  rewrite Ew. unfold ret. cbn [app snd].
  eexists _, _. split; [reflexivity|]. split; [exact Hc|]. split; [reflexivity|].
  split.
  - intros p Hp. apply find_some in Hp as [Hin Hn]. split; [exact Hin|].
    apply named_spec, Hn.
  - intros Hnone p Hin Hname. apply named_spec in Hname.
    pose proof (find_none _ _ Hnone p Hin) as Hf. congruence.
Qed.

(** *** Module enumeration *)

(** X12.  Before the switch: when the PEB pointer cannot be read
    [list_mods] returns [false] with a diagnostic, and when it is null (the
    system process) it returns [true]; in both cases the visitor is not
    called and the call made a single read, under the caller's selection. *)
Theorem list_mods_without_peb {A} (fuel : nat) (proc : proc_t)
    (f : mod_t -> A -> A * walk_e) (acc : A) (st : state) :
  let field := add64 (id proc) (member nt EPROCESS_Peb) in
  (peek core (cur st) field = None ->
   list_mods core nt fuel proc f acc st
   = Ret ((false, acc),
          after st [ptr_read st field] [mk_log ERROR "unable to read EPROCESS.Peb" []]))
  /\ (peek core (cur st) field = Some 0 ->
      list_mods core nt fuel proc f acc st
      = Ret ((true, acc), after st [ptr_read st field] [])).
Proof.
  intros field. unfold list_mods. fold field. rewrite !bind_read_ptr.
  split; intros ->.
  - unfold FAIL. rewrite bind_LOG. unfold ret, after. cbn [cur reads logs].
    rewrite !app_nil_r. reflexivity.
  - reflexivity.
Qed.

Lemma list_mods_loop_linked {A} (f : mod_t -> A -> A * walk_e) (head : Z)
    (c : option proc_t) (ending : option Z) (nodes : list Z) : forall fuel a acc st,
  cur st = c ->
  linked core c head a nodes ending ->
  ending = None \/ ending = Some head ->
  (length nodes < fuel)%nat ->
  exists rs,
    list_mods_loop core nt fuel f head (peek core c a) acc st
    = Ret (visit f (map (mod_at nt) nodes) acc, after st rs [])
    /\ Forall (fun e => r_ctx e = c) rs.
Proof.
  induction nodes as [|l rest IH]; intros fuel a acc st Hc Hl He Hf;
    (destruct fuel as [|fuel]; [cbn in Hf; lia|]); cbn [linked] in Hl.
  - rewrite Hl. cbn [list_mods_loop map visit]. exists [].
    split; [|constructor]. unfold after. rewrite !app_nil_r.
    destruct He as [->| ->]; [destruct st; reflexivity|].
    rewrite Z.eqb_refl. destruct st; reflexivity.
  - destruct Hl as (Ha & Hne & Hrest). rewrite Ha.
    cbn [list_mods_loop map visit]. apply Z.eqb_neq in Hne as ->. cbn [negb].
    unfold mod_at at 1. destruct (f _ acc) as [acc' [|]].
    + exists []. split; [|constructor]. unfold ret, after. rewrite !app_nil_r.
      destruct st; reflexivity.
    + unfold bind. rewrite read_ptr_run, Hc.
      destruct (IH fuel l acc' (after st [ptr_read st l] []) Hc Hrest He)
        as (rs & E & Hrs); [cbn in Hf; lia|].
      rewrite E. exists (ptr_read st l :: rs). split.
      * unfold after. cbn [cur reads logs]. rewrite <- !app_assoc, !app_nil_r.
        reflexivity.
      * constructor; [exact Hc | exact Hrs].
Qed.

(** X13.  On a process with a PEB whose loader pointer can be read and
    whose load-order list is linked, [list_mods] returns [true] after
    showing the visitor the module entries in list order, until it says
    stop.  The list may close on its head or end on a link that cannot be
    read: both end the walk with success.  The PEB pointer is read under
    the caller's selection, everything after it under the selection of the
    process, and the caller's selection is back at the end. *)
Theorem list_mods_linked {A} (f : mod_t -> A -> A * walk_e) (proc : proc_t)
    (peb ldr : Z) (nodes : list Z) (ending : option Z)
    (fuel : nat) (acc : A) (st : state) :
  let field := add64 (id proc) (member nt EPROCESS_Peb) in
  let head := add64 ldr (member nt PEB_LDR_DATA_InLoadOrderModuleList) in
  peek core (cur st) field = Some peb -> peb <> 0 ->
  peek core (Some proc) (add64 peb (member nt PEB_Ldr)) = Some ldr ->
  linked core (Some proc) head head nodes ending ->
  ending = None \/ ending = Some head ->
  (length nodes < fuel)%nat ->
  exists rs,
    list_mods core nt fuel proc f acc st
    = Ret ((true, visit f (map (mod_at nt) nodes) acc),
           after st (ptr_read st field :: rs) [])
    /\ Forall (fun e => r_ctx e = Some proc) rs.
Proof.
  intros field head Hpeb Hnz Hldr Hl He Hf. unfold list_mods. fold field.
  rewrite bind_read_ptr, Hpeb. apply Z.eqb_neq in Hnz as ->.
  unfold bind at 1. unfold switch_process at 1. unfold scoped.
  unfold bind at 1. rewrite bind_read_ptr, cur_after. cbn [cur]. rewrite Hldr.
  fold head. rewrite bind_read_ptr, !cur_after. cbn [cur]. unfold bind at 1.
  match goal with
  | |- context [list_mods_loop _ _ _ _ _ _ _ ?s] =>
    destruct (list_mods_loop_linked f head (Some proc) ending nodes fuel head acc s
                eq_refl Hl He Hf) as (rs & E & Hrs)
  end.
  rewrite E.
  exists (mk_read (Some proc) (add64 peb (member nt PEB_Ldr)) 8
          :: mk_read (Some proc) head 8 :: rs).
  split; [|repeat (constructor; [reflexivity|]); exact Hrs].
  unfold release, bind, ret, after, ptr_read. cbn [saved cur reads logs].
  rewrite <- !app_assoc, !app_nil_r. reflexivity.
Qed.

(** X14.  [get_mod_name] always returns the text of the [FullDllName]
    descriptor as the address space of the process holds it, whatever
    selection the caller had, and puts that selection back. *)
Theorem get_mod_name_in_process (proc : proc_t) (mod_ : mod_t) (st : state) :
  exists rs ls,
    get_mod_name core utf8_convert nt proc mod_ st
    = Ret (unicode_text core utf8_convert (Some proc)
             (add64 mod_ (member nt LDR_DATA_TABLE_ENTRY_FullDllName)),
           after st rs ls).
Proof.
  unfold get_mod_name, scoped. unfold bind at 1. unfold switch_process at 1.
  unfold bind at 1.
  match goal with
  | |- context [read_unicode_string core utf8_convert ?a ?s] =>
    destruct (read_unicode_string_run core utf8_convert a s) as (rs & ls & E & _)
  end.
  rewrite E. unfold release, bind, ret, after. cbn [saved cur reads logs].
  eexists _, ls. reflexivity.
Qed.

(** X15.  [get_mod_span] gives no partial span: it always returns, its
    result is absent exactly when the base or the size cannot be read in
    the address space of the process, and after a failed read of the base
    the size is not read at all. *)
Theorem get_mod_span_absent_iff (proc : proc_t) (mod_ : mod_t) (st : state) :
  let a_base := add64 mod_ (member nt LDR_DATA_TABLE_ENTRY_DllBase) in
  let a_size := add64 mod_ (member nt LDR_DATA_TABLE_ENTRY_SizeOfImage) in
  exists r st',
    get_mod_span core nt proc mod_ st = Ret (r, st')
    /\ (r = None <->
        peek core (Some proc) a_base = None \/ peek core (Some proc) a_size = None)
    /\ (peek core (Some proc) a_base = None ->
        st' = after st [mk_read (Some proc) a_base 8] []).
Proof.
  intros a_base a_size. unfold get_mod_span, scoped. fold a_base. fold a_size.
  unfold bind at 1. unfold switch_process at 1.
  unfold bind at 1. unfold bind at 1. rewrite read_ptr_run.
  cbn [after cur reads logs].
  destruct (peek core (Some proc) a_base) as [base|].
  2:{ eexists _, _. split; [reflexivity|]. split; [tauto|]. intros _.
      unfold after, ptr_read. cbn [saved cur reads logs].
      rewrite <- ?app_assoc, ?app_nil_r. reflexivity. }
  unfold bind at 1. rewrite read_ptr_run. cbn [after cur reads logs].
  destruct (peek core (Some proc) a_size) as [sz|].
  - eexists _, _. split; [reflexivity|]. split; [|discriminate].
    split; [discriminate | intros [H|H]; discriminate H].
  - eexists _, _. split; [reflexivity|]. split; [tauto | discriminate].
Qed.

Lemma after_nil' st : st = after st [] [].
Proof. unfold after. rewrite !app_nil_r. destruct st; reflexivity. Qed.

Lemma after_after st rs ls rs' ls' :
  after (after st rs ls) rs' ls' = after st (rs ++ rs') (ls ++ ls').
Proof. unfold after. cbn [cur reads logs]. rewrite <- !app_assoc. reflexivity. Qed.

Lemma list_procs_loop_reads {A} (f : proc_t -> A -> A * walk_e) (head : Z) (fuel : nat) :
  forall link acc st r st',
    list_procs_loop core nt fuel f head link acc st = Ret (r, st') ->
    exists rs ls, st' = after st rs ls /\ Forall (fun e => r_ctx e = cur st) rs.
Proof.
  induction fuel as [|fuel IH]; intros link acc st r st'; cbn [list_procs_loop];
    [discriminate|].
  destruct (opt_ne link head).
  2:{ unfold ret. intros [= _ <-]. exists [], [].
      split; [apply after_nil' | constructor]. }
  destruct link as [l|]; [|discriminate].
  rewrite bind_read_ptr.
  destruct (peek core (cur st) _) as [d|].
  - destruct (f _ acc) as [acc' [|]].
    + unfold ret. intros [= _ <-]. eexists [_], [].
      split; [reflexivity | repeat constructor].
    + rewrite bind_read_ptr. intros H. apply IH in H as (rs & ls & -> & Hrs).
      rewrite !after_after. eexists _, _. split; [reflexivity|]. cbn [app].
      repeat (constructor; [reflexivity|]). exact Hrs.
  - rewrite bind_LOG, bind_read_ptr. intros H. apply IH in H as (rs & ls & -> & Hrs).
    rewrite !after_after. eexists _, _. split; [reflexivity|]. cbn [app].
    repeat (constructor; [reflexivity|]). exact Hrs.
Qed.

(** X16.  The queries on kernel objects never switch the address space:
    whatever [list_procs] and [has_virtual] read, they read under the
    selection the caller had, which is kept; [has_virtual] always returns,
    and says [true] exactly when the VAD root can be read and is not
    null. *)
Theorem kernel_queries_keep_selection (proc : proc_t) (st : state) :
  (forall A fuel (f : proc_t -> A -> A * walk_e) acc r st',
      list_procs core nt fuel f acc st = Ret (r, st') ->
      exists rs ls, st' = after st rs ls /\ Forall (fun e => r_ctx e = cur st) rs)
  /\ exists b,
      has_virtual core nt proc st
      = Ret (b, after st [ptr_read st (add64 (id proc) (member nt EPROCESS_VadRoot))] [])
      /\ (b = true <->
          exists v, peek core (cur st) (add64 (id proc) (member nt EPROCESS_VadRoot))
                    = Some v /\ v <> 0).
Proof.
  split.
  - intros A fuel f acc r st'. unfold list_procs. rewrite bind_read_ptr.
    unfold bind.
    destruct (list_procs_loop _ _ _ _ _ _ _ _) as [[acc' st2]| |] eqn:E; [|discriminate..].
    unfold ret. intros [= _ <-].
    apply list_procs_loop_reads in E as (rs & ls & -> & Hrs).
    rewrite after_after. eexists _, _. split; [reflexivity|]. cbn [app].
    constructor; [reflexivity | exact Hrs].
  - unfold has_virtual. rewrite bind_read_ptr. eexists. split; [reflexivity|].
    destruct (peek core (cur st) _) as [v|].
    + rewrite negb_true_iff, Z.eqb_neq. split.
      * intros Hv. exists v. split; [reflexivity | exact Hv].
      * intros (v' & [= <-] & Hv). exact Hv.
    + split; [discriminate | intros (v & [=] & _)].
Qed.

(** *** Current process and enumeration *)

Lemma le_decode_bound bs : 0 <= le_decode bs < 256 ^ Z.of_nat (length bs).
Proof.
  induction bs as [|b bs IH]; cbn [le_decode length].
  - change (256 ^ Z.of_nat 0) with 1. lia.
  - pose proof (byte_val_range b). rewrite Nat2Z.inj_succ, Z.pow_succ_r by lia. lia.
Qed.

Lemma peek_range c a v : peek core c a = Some v -> 0 <= v < U64.
Proof.
  unfold peek. destruct (read_bytes (memory core c) a 8) as [bs|] eqn:E; [|discriminate].
  cbn. intros [= <-]. unfold read_le64.
  pose proof (le_decode_bound (take 8 bs)) as Hb.
  rewrite length_take, (read_bytes_length _ _ _ _ E) in Hb. exact Hb.
Qed.

(** X17.  The two ways to a process handle agree: the handle that
    [get_current_proc] returns is the handle [list_procs] builds for the
    list node of that same process object (its address plus the offset of
    [ActiveProcessLinks]), page-table root included. *)
Theorem get_current_proc_is_enumerated (st : state) (p : proc_t) (st' : state) :
  get_current_proc core nt st = Ret (Some p, st') ->
  proc_at core nt (cur st) (add64 (id p) (member nt EPROCESS_ActiveProcessLinks)) = Some p.
Proof.
  unfold get_current_proc. unfold bind at 1. rewrite read_gs_base_run.
  destruct (match regs_read core MSR_GS_BASE with
            | None => None
            | Some gs => _ end) as [gs|]; [|discriminate].
  rewrite bind_read_ptr.
  destruct (peek core (cur st) _) as [ct|]; [|discriminate].
  rewrite bind_read_ptr, cur_after.
  destruct (peek core (cur st) (add64 ct _)) as [kp|] eqn:Hkp; [|discriminate].
  rewrite bind_read_ptr, !cur_after.
  destruct (peek core (cur st) (add64 kp _)) as [d|] eqn:Hd; [|discriminate].
  unfold ret. intros [= <- _]. cbn [id].
  pose proof (peek_range _ _ _ Hkp) as Hr.
  assert (Hid : sub64 (add64 (sub64 kp (member nt EPROCESS_Pcb))
                         (member nt EPROCESS_ActiveProcessLinks))
                      (member nt EPROCESS_ActiveProcessLinks)
                = sub64 kp (member nt EPROCESS_Pcb)).
  { unfold sub64, add64, wrap64. rewrite Zminus_mod_idemp_l.
    replace ((kp - member nt EPROCESS_Pcb) mod U64
             + member nt EPROCESS_ActiveProcessLinks
             - member nt EPROCESS_ActiveProcessLinks)
      with ((kp - member nt EPROCESS_Pcb) mod U64) by lia.
    apply Z.mod_mod. discriminate. }
  assert (Hk : add64 (sub64 kp (member nt EPROCESS_Pcb)) (member nt EPROCESS_Pcb) = kp).
  { unfold sub64, add64, wrap64. rewrite Zplus_mod_idemp_l.
    replace (kp - member nt EPROCESS_Pcb + member nt EPROCESS_Pcb) with kp by lia.
    apply Z.mod_small. exact Hr. }
  unfold proc_at. rewrite Hid, Hk, Hd. reflexivity.
Qed.

(** *** Name resolution, step by step *)




(** *** The enumeration with its diagnostics *)




End walker_more.

(** ** The further properties on the concrete guests *)

Lemma find_kernel_sound_witness :
  addr kernel_span mod PAGE = 0
  /\ 0 <= addr kernel_span < 0x4200
  /\ probe_page guest_kernel PAGE probe_mz (cur st0) (addr kernel_span)
     = Some (Some (size kernel_span))
  /\ cur st_located = cur st0 /\ logs st_located = logs st0.
Proof.
  apply (find_kernel_sound guest_kernel PAGE probe_mz 3 0x4200 st0 kernel_span st_located).
  - reflexivity.
  - exists (2 ^ 52). reflexivity.
  - split; [discriminate | reflexivity].
  - vm_compute. reflexivity.
Defined.

Lemma find_kernel_returns_witness :
  exists r st', find_kernel guest_unmapped PAGE probe_mz 6 0x4200 st0 = Ret (r, st').
Proof.
  apply (find_kernel_returns guest_unmapped PAGE probe_mz 6 0x4200 st0).
  - reflexivity.
  - discriminate.
  - discriminate.
  - vm_compute. lia.
Defined.

Lemma find_kernel_wraps_around_witness :
  find_kernel guest_blank PAGE probe_none 1000 (U64 - 1) st0 = OutOfFuel.
Proof.
  apply (find_kernel_wraps_around guest_blank PAGE probe_none (U64 - 1) st0).
  - reflexivity.
  - exists (2 ^ 52). reflexivity.
  - split; reflexivity.
  - intros p. unfold probe_page.
    destruct (read_bytes_mapped (memory guest_blank (cur st0)) (Z.to_nat PAGE) p)
      as [bs ->]; [discriminate | reflexivity].
Defined.

Lemma setup_preconditions_witness :
  setup guest_unmapped PAGE probe_mz 3 nt_win st0
  = Ret ((false, nt_win),
         after (mk_state None [mk_read None 0x4000 PAGE] []) []
           [mk_log ERROR "unable to find kernel" []])
  /\ setup guest_no_debug_info PAGE probe_mz 3 nt_win st0
     = Ret ((false, nt_win),
            after st_located [mk_read None 0x2000 0x3000]
              [kernel_info kernel_span;
               mk_log ERROR "unable to load symbols from kernel module" []]).
Proof.
  split.
  - apply (proj1 (proj2 (setup_preconditions guest_unmapped PAGE probe_mz 3 nt_win st0))
             0x4200).
    + reflexivity.
    + vm_compute. reflexivity.
  - apply (proj2 (proj2 (proj2 (setup_preconditions guest_no_debug_info PAGE probe_mz 3
                                  nt_win st0)))
             0x4200 kernel_span st_located kernel_image).
    + reflexivity.
    + vm_compute. reflexivity.
    + vm_compute. reflexivity.
    + reflexivity.
Defined.

Lemma make_nt_handler_consistent_witness :
  exists st',
    make_nt (guest_boot 0x4200) PAGE probe_mz 3 (fun _ => 0) (fun _ => 0) st0
    = Ret (Some nt_win, st')
    /\ exists lstar kernel st1,
        regs_read (guest_boot 0x4200) MSR_LSTAR = Some lstar
        /\ find_kernel (guest_boot 0x4200) PAGE probe_mz 3 lstar st0
           = Ret (Some kernel, st1)
        /\ symbol nt_win KiSystemCall64 = lstar
        /\ sym_symbol (guest_boot 0x4200) "nt" "KiSystemCall64" = Some lstar
        /\ missing_symbols (guest_boot 0x4200) = []
        /\ missing_members (guest_boot 0x4200) = []
        /\ logs st' = logs st1 ++ [kernel_info kernel].
Proof.
  destruct setup_matching_build as (st' & H & _).
  exists st'. split; [exact H|].
  exact (make_nt_handler_consistent (guest_boot 0x4200) PAGE probe_mz 3
           (fun _ => 0) (fun _ => 0) st0 nt_win st' H).
Defined.

Lemma get_proc_name_short_round_trip_witness :
  exists st',
    get_proc_name guest_system decode_ascii16 last_component nt_win proc_sys st0
    = Ret (Some "System"%string, st').
Proof.
  apply (get_proc_name_short_round_trip guest_system decode_ascii16 last_component nt_win
           "System" (zeros 8) proc_sys st0).
  - cbn. repeat split; discriminate.
  - cbn. lia.
  - vm_compute. reflexivity.
Defined.

Lemma read_unicode_string_reads_length_witness :
  read_unicode_string guest decode_ascii16 0x60000 st0
  = Ret (Some full_image_path,
         after st0 [mk_read None 0x60000 16; mk_read None 0x60010 132] []).
Proof.
  etransitivity.
  - apply (proj1 (read_unicode_string_reads_length guest decode_ascii16 0x60000 st0
                    (descriptor 132 134 0x60010)
                    ltac:(vm_compute; reflexivity) ltac:(vm_compute; discriminate))
             (utf16_of_string full_image_path)).
    vm_compute. reflexivity.
  - vm_compute. reflexivity.
Defined.

Lemma list_procs_linked_witness :
  exists st',
    list_procs guest nt_win 4 collect [] st0 = Ret ((true, [proc_a; proc_c]), st')
    /\ cur st' = cur st0.
Proof.
  destruct (list_procs_linked guest nt_win collect proc_nodes 4 [] st0)
    as (st' & E & Hc).
  - cbn [linked proc_nodes]. repeat split; try discriminate; vm_compute; reflexivity.
  - cbn. lia.
  - assert (Hv : visit collect (omap (proc_at guest nt_win (cur st0)) proc_nodes) []
                 = [proc_a; proc_c]) by (vm_compute; reflexivity).
    rewrite Hv in E. exists st'. split; [exact E | exact Hc].
Defined.

Lemma get_proc_first_match_witness :
  exists st',
    get_proc guest decode_ascii16 last_component nt_win 5 "SecurityHealthService.exe" st0
    = Ret (Some proc_c, st').
Proof.
  destruct list_procs_walk as (st1 & H & _).
  destruct (get_proc_first_match guest decode_ascii16 last_component nt_win 5
              "SecurityHealthService.exe" st0 true [proc_a; proc_c] st1 H)
    as (r & st' & E & _ & Hr & _).
  assert (Hf : List.find (named guest decode_ascii16 last_component nt_win (cur st0)
                            "SecurityHealthService.exe") [proc_a; proc_c]
               = Some proc_c) by (vm_compute; reflexivity).
  rewrite Hf in Hr. rewrite Hr in E. exists st'. exact E.
Defined.

Lemma list_mods_without_peb_witness :
  list_mods guest_system nt_win 3 proc_sys collect [] st0
  = Ret ((true, []), after st0 [ptr_read st0 0x403f8] []).
Proof.
  apply (proj2 (list_mods_without_peb guest_system nt_win 3 proc_sys collect [] st0)).
  vm_compute. reflexivity.
Defined.

Lemma list_mods_linked_witness :
  exists rs,
    list_mods guest nt_win 3 proc_a collect [] st_other
    = Ret ((true, mod_nodes), after st_other (ptr_read st_other 0x103f8 :: rs) [])
    /\ Forall (fun e => r_ctx e = Some proc_a) rs.
Proof.
  destruct (list_mods_linked guest nt_win collect proc_a 0x7f000 0x7e000 mod_nodes
              (Some 0x7e010) 3 [] st_other) as (rs & E & Hrs).
  - vm_compute. reflexivity.
  - discriminate.
  - vm_compute. reflexivity.
  - cbn [linked mod_nodes]. repeat split; try discriminate; vm_compute; reflexivity.
  - right. reflexivity.
  - cbn. lia.
  - assert (Hv : visit collect (map (mod_at nt_win) mod_nodes) [] = mod_nodes)
      by (vm_compute; reflexivity).
    rewrite Hv in E. exists rs. split; [exact E | exact Hrs].
Defined.

Lemma get_current_proc_is_enumerated_witness :
  proc_at guest nt_win None (add64 0xffffe00000010000 0x2f0)
  = Some (mk_proc 0xffffe00000010000 0x1ab000).
Proof.
  refine (get_current_proc_is_enumerated guest nt_win st0
            (mk_proc 0xffffe00000010000 0x1ab000)
            (after st0 [ptr_read st0 0xfffff80000a00188;
                        ptr_read st0 0xffffe00000001220;
                        ptr_read st0 0xffffe00000010028] []) _).
  vm_compute. reflexivity.
Defined.

(** *** The enumeration and the names on concrete guests *)



